(** * File de-duplication system: record store, upload and listing routes

    A shallow embedding of [src/lib/database.ts], [src/lib/fileUtils.ts],
    [src/app/api/upload/route.ts], [src/app/api/files/route.ts],
    [src/app/api/check-duplicate/[hash]/route.ts] and
    [src/app/api/stats/route.ts], with the properties of the record store,
    the processing state machine, the ingest coordinator and the query
    routes stated over it.

    Conventions.
    - A JavaScript [number] that the code only ever uses as an integer (byte
      sizes, chunk counts, counters, epoch milliseconds) is a [Z], in the
      safe-integer range where floating point arithmetic is exact.  The two
      pagination parameters can be [NaN] and are a [JsNumber].
    - The [SimulatedDatabase] singleton is a state threaded through the
      [Db] monad; a thrown [Error] (a rejected promise) is the [Thrown]
      outcome.  A request handler runs to completion; the one
      interleaving stated is that of two uploads, with [POST] cut at the
      [await] between its lookup and its insert.
    - [uuidv4()] and [new Date()] are supplied by the environment: the
      operations that call them take the value drawn as an argument.
    - [createHash('sha256')] and [parseInt] are library functions: the model
      is parameterised by them. *)

From Stdlib Require Import Ascii.
From stdpp Require Import gmap strings list fin_maps pretty sorting.

Local Open Scope string_scope.
Local Open Scope list_scope.
Local Open Scope Z_scope.

(** ** The [Map<string, V>] of JavaScript, in insertion order *)

Module JsMap.
Section JsMap.
Context {V : Type}.

Fixpoint get (k : string) (m : list (string * V)) : option V :=
  match m with
  | [] => None
  | (k', v) :: m' => if decide (k = k') then Some v else get k m'
  end.

(* [set] on a key already present keeps the entry at its place. *)
Fixpoint set (k : string) (v : V) (m : list (string * V)) : list (string * V) :=
  match m with
  | [] => [(k, v)]
  | (k', v') :: m' =>
      if decide (k = k') then (k, v) :: m' else (k', v') :: set k v m'
  end.

(* The value stored under [k] is an object; [mutate] is an assignment to
   its fields, seen through every reference to it. *)
Fixpoint mutate (k : string) (f : V → V) (m : list (string * V)) : list (string * V) :=
  match m with
  | [] => []
  | (k', v) :: m' =>
      if decide (k = k') then (k', f v) :: m' else (k', v) :: mutate k f m'
  end.

Definition size (m : list (string * V)) : Z := Z.of_nat (length m).

Definition values (m : list (string * V)) : list V := m.*2.
End JsMap.
End JsMap.

(** ** [database.ts]: the data model *)

Inductive ProcessingStatus := pending | processing | completed | failed.

Global Instance ProcessingStatus_eq_dec : EqDecision ProcessingStatus.
Proof. solve_decision. Defined.

(* The string literal each member of the union type stands for. *)
Definition status_string (st : ProcessingStatus) : string :=
  match st with
  | pending => "pending"
  | processing => "processing"
  | completed => "completed"
  | failed => "failed"
  end.

Record FileRecord := mkFileRecord {
  id : string;
  file_name : string;
  file_hash : string;
  file_size : Z;
  mime_type : string;
  created_at : Z;                (* [Date.getTime()], epoch milliseconds *)
  chunk_count : option Z;        (* [None] is an absent field *)
  processing_status : ProcessingStatus
}.

(* [Omit<FileRecord, 'id' | 'created_at'>] *)
Record FileData := mkFileData {
  fd_file_name : string;
  fd_file_hash : string;
  fd_file_size : Z;
  fd_mime_type : string;
  fd_chunk_count : option Z;
  fd_processing_status : ProcessingStatus
}.

Record SimulatedDatabase := mkDb {
  files : list (string * FileRecord);
  hashIndex : gmap string string
}.

(* [new SimulatedDatabase()] *)
Definition db0 : SimulatedDatabase := {| files := []; hashIndex := ∅ |}.

(** ** State and exceptions *)

Inductive JsError := Error (message : string).

Inductive Outcome (A : Type) :=
  | Returned (a : A)
  | Thrown (e : JsError).
Arguments Returned {A} a.
Arguments Thrown {A} e.

Definition Db (A : Type) : Type := SimulatedDatabase → Outcome A * SimulatedDatabase.

Definition ret {A} (a : A) : Db A := λ s, (Returned a, s).

Definition throw {A} (e : JsError) : Db A := λ s, (Thrown e, s).

Definition bind {A B} (c : Db A) (k : A → Db B) : Db B :=
  λ s, match c s with
       | (Returned a, s') => k a s'
       | (Thrown e, s') => (Thrown e, s')
       end.

(* [try { body } catch (error) { handler }]: what [body] wrote before it
   threw stays written. *)
Definition try_catch {A} (body : Db A) (handler : JsError → Db A) : Db A :=
  λ s, match body s with
       | (Returned a, s') => (Returned a, s')
       | (Thrown e, s') => handler e s'
       end.

(* A call into a collaborator that does not touch the store. *)
Definition lift {A} (o : Outcome A) : Db A := λ s, (o, s).

Notation "'let*' x ':=' c 'in' k" := (bind c (λ x, k))
  (at level 10, x name, c at level 100, k at level 200).
Notation "c ';;' k" := (bind c (λ _, k))
  (at level 100, k at level 200, right associativity).

Definition files_get (k : string) : Db (option FileRecord) :=
  λ s, (Returned (JsMap.get k (files s)), s).

Definition files_set (k : string) (r : FileRecord) : Db unit :=
  λ s, (Returned (), {| files := JsMap.set k r (files s); hashIndex := hashIndex s |}).

Definition files_mutate (k : string) (f : FileRecord → FileRecord) : Db unit :=
  λ s, (Returned (), {| files := JsMap.mutate k f (files s); hashIndex := hashIndex s |}).

Definition files_values : Db (list FileRecord) :=
  λ s, (Returned (JsMap.values (files s)), s).

Definition files_size : Db Z :=
  λ s, (Returned (JsMap.size (files s)), s).

Definition hashIndex_has (h : string) : Db bool :=
  λ s, (Returned (bool_decide (is_Some (hashIndex s !! h))), s).

Definition hashIndex_get (h : string) : Db (option string) :=
  λ s, (Returned (hashIndex s !! h), s).

Definition hashIndex_set (h k : string) : Db unit :=
  λ s, (Returned (), {| files := files s; hashIndex := <[h := k]> (hashIndex s) |}).

Definition hashIndex_size : Db Z :=
  λ s, (Returned (Z.of_nat (size (hashIndex s))), s).

(** ** [database.ts]: the operations of [SimulatedDatabase] *)

Definition insertFile (fileData : FileData) (uuidv4 : string) (now : Z) : Db FileRecord :=
  let* present := hashIndex_has (fd_file_hash fileData) in
  if (present : bool) then
    throw (Error ("File with hash " +:+ fd_file_hash fileData +:+ " already exists"))
  else
    let record :=
      {| id := uuidv4;
         file_name := fd_file_name fileData;
         file_hash := fd_file_hash fileData;
         file_size := fd_file_size fileData;
         mime_type := fd_mime_type fileData;
         created_at := now;
         chunk_count := fd_chunk_count fileData;
         processing_status := fd_processing_status fileData |} in
    files_set uuidv4 record ;;
    hashIndex_set (fd_file_hash fileData) uuidv4 ;;
    ret record.

(* [!id] holds of [undefined] and of the empty string. *)
Definition findByHash (hash : string) : Db (option FileRecord) :=
  let* found := hashIndex_get hash in
  match found with
  | None => ret None
  | Some k => if decide (k = "") then ret None else files_get k
  end.

Definition findById (k : string) : Db (option FileRecord) :=
  files_get k.

Definition set_status (st : ProcessingStatus) (r : FileRecord) : FileRecord :=
  {| id := id r; file_name := file_name r; file_hash := file_hash r;
     file_size := file_size r; mime_type := mime_type r;
     created_at := created_at r; chunk_count := chunk_count r;
     processing_status := st |}.

Definition set_chunk_count (n : Z) (r : FileRecord) : FileRecord :=
  {| id := id r; file_name := file_name r; file_hash := file_hash r;
     file_size := file_size r; mime_type := mime_type r;
     created_at := created_at r; chunk_count := Some n;
     processing_status := processing_status r |}.

Definition updateProcessingStatus
    (k : string) (status : ProcessingStatus) (chunkCount : option Z) : Db unit :=
  let* record := files_get k in
  match record with
  | Some _ =>
      files_mutate k (set_status status) ;;
      match chunkCount with
      | Some n => files_mutate k (set_chunk_count n)
      | None => ret ()
      end
  | None => ret ()
  end.

(** *** Numbers that can be [NaN], and [Array.prototype.slice] *)

Inductive JsNumber := NaN | Int (z : Z).

Definition js_add (a b : JsNumber) : JsNumber :=
  match a, b with
  | Int x, Int y => Int (x + y)
  | _, _ => NaN
  end.

(* [Math.min] and [Math.max] return [NaN] as soon as an argument is [NaN]. *)
Definition Math_min (a b : JsNumber) : JsNumber :=
  match a, b with
  | Int x, Int y => Int (Z.min x y)
  | _, _ => NaN
  end.

Definition Math_max (a b : JsNumber) : JsNumber :=
  match a, b with
  | Int x, Int y => Int (Z.max x y)
  | _, _ => NaN
  end.

(* [ToIntegerOrInfinity]: [NaN] becomes 0. *)
Definition to_integer (a : JsNumber) : Z :=
  match a with
  | NaN => 0
  | Int z => z
  end.

(* A relative index of [slice]: negative counts from the end, and the
   result is clamped to [0, len]. *)
Definition relative_index (len : Z) (a : JsNumber) : Z :=
  let r := to_integer a in
  if r <? 0 then Z.max (len + r) 0 else Z.min r len.

Definition slice {A} (l : list A) (start stop : JsNumber) : list A :=
  let len := Z.of_nat (length l) in
  let k := relative_index len start in
  let final := relative_index len stop in
  take (Z.to_nat (Z.max (final - k) 0)) (drop (Z.to_nat k) l).

(** *** [getAllFiles] *)

(* [(a, b) => b.created_at.getTime() - a.created_at.getTime()] *)
Definition compare_created_at (a b : FileRecord) : Z :=
  created_at b - created_at a.

(* [Array.prototype.sort] is stable: an element moves in front of those it
   does not compare greater than, and never in front of an earlier equal. *)
Fixpoint sort_insert (cmp : FileRecord → FileRecord → Z)
    (x : FileRecord) (l : list FileRecord) : list FileRecord :=
  match l with
  | [] => [x]
  | y :: l' => if cmp x y <=? 0 then x :: l else y :: sort_insert cmp x l'
  end.

Definition sort (cmp : FileRecord → FileRecord → Z) (l : list FileRecord) : list FileRecord :=
  foldr (sort_insert cmp) [] l.

(* The defaults of the parameters are [limit = 50] and [offset = 0]. *)
Definition getAllFiles (limit offset : JsNumber) : Db (list FileRecord) :=
  let* vals := files_values in
  let allFiles := sort compare_created_at vals in
  ret (slice allFiles offset (js_add offset limit)).

(** *** [getStats] *)

Record Stats := mkStats {
  totalFiles : Z;
  uniqueHashes : Z;
  processingStats : gmap string Z
}.

(* [processingStats[key] = (processingStats[key] || 0) + 1]; a count is
   never [NaN], so [n || 0] is [n] when the key is there. *)
Definition count_status (acc : gmap string Z) (file : FileRecord) : gmap string Z :=
  let key := status_string (processing_status file) in
  <[key := default 0 (acc !! key) + 1]> acc.

Definition getStats : Db Stats :=
  let* total := files_size in
  let* unique := hashIndex_size in
  let* filesArray := files_values in
  ret {| totalFiles := total;
         uniqueHashes := unique;
         processingStats := foldl count_status ∅ filesArray |}.

(** ** [fileUtils.ts] *)

Section FileUtils.
(* [createHash('sha256').update(buffer).digest('hex')] *)
Variable sha256_hex : list Byte.byte → string.

Definition computeFileHash (fileBuffer : list Byte.byte) : string :=
  sha256_hex fileBuffer.
End FileUtils.

Record Validation := mkValidation {
  isValid : bool;
  error : option string
}.

(* [Math.round(n / 1024 / 1024)] for an integer [n]: dividing by a power of
   two is exact, and [Math.round] rounds halves up. *)
Definition round_megabytes (n : Z) : Z := (n + 524288) `div` 1048576.

Definition default_maxSizeBytes : Z := 100 * 1024 * 1024.

Definition validateFile (size : Z) (type : string) (maxSizeBytes : Z) : Validation :=
  if maxSizeBytes <? size then
    {| isValid := false;
       error := Some ("File size (" +:+ pretty (round_megabytes size)
                      +:+ "MB) exceeds maximum allowed size ("
                      +:+ pretty (round_megabytes maxSizeBytes) +:+ "MB)") |}
  else if size =? 0 then
    {| isValid := false; error := Some "File is empty" |}
  else
    {| isValid := true; error := None |}.

Record RagResult := mkRagResult {
  success : bool;
  chunkCount : Z
}.

(* [processingTimeMs] is wall-clock time and is left out; the quotient of
   two safe integers floors to the integer quotient. *)
Definition simulateRAGProcessing (fileId fileName : string) (fileSize : Z) : Outcome RagResult :=
  let estimatedChunks := Z.max 1 (fileSize `div` 667) in
  Returned {| success := true; chunkCount := estimatedChunks |}.

Definition generateFileMetadata (name : string) (size : Z) (type : string) (hash : string)
    : FileData :=
  {| fd_file_name := name;
     fd_file_hash := hash;
     fd_file_size := size;
     fd_mime_type := if decide (type = "") then "application/octet-stream" else type;
     fd_chunk_count := None;
     fd_processing_status := pending |}.

(** ** [app/api/upload/route.ts] *)

(* The [File] of the multipart form: [size] is the length of its bytes. *)
Record File := mkFile {
  name : string;
  type : string;
  content : list Byte.byte
}.

Definition File_size (file : File) : Z := Z.of_nat (length (content file)).

Record Response (B : Type) := mkResponse {
  status : Z;
  body : B
}.
Arguments mkResponse {B} status body.
Arguments status {B} r.
Arguments body {B} r.

(* [NextResponse.json(body)] and [NextResponse.json(body, { status })] *)
Definition json {B} (b : B) : Response B := {| status := 200; body := b |}.
Definition json_status {B} (b : B) (st : Z) : Response B := {| status := st; body := b |}.

Record UploadedFile := mkUploadedFile {
  u_id : string;
  u_name : string;
  u_hash : string;
  u_size : Z;
  u_mimeType : string;
  u_createdAt : Z;
  u_processingStatus : ProcessingStatus;
  u_chunkCount : option Z
}.

Inductive UploadBody :=
  | UploadError (error : option string) (message : option string)
  | UploadResult (success duplicate : bool) (message : string) (file : UploadedFile).

(* A call of [processFileInBackground] that has reached its timer and will
   resume later. *)
Record BackgroundJob := mkBackgroundJob {
  job_fileId : string;
  job_fileName : string;
  job_fileSize : Z
}.

(* An [async] function called without [await]: its body runs up to its
   first suspension, and a rejection of its promise reaches nobody. *)
Definition spawn (c : Db unit) : Db unit :=
  λ s, match c s with
       | (_, s') => (Returned (), s')
       end.

Section UploadRoute.
Variable sha256_hex : list Byte.byte → string.
(* The collaborator [processFileInBackground] awaits; in the source it is
   [simulateRAGProcessing]. *)
Variable rag : string → string → Z → Outcome RagResult.

Definition processFileInBackground (fileId fileName : string) (fileSize : Z) : Db unit :=
  try_catch
    (updateProcessingStatus fileId processing None ;;
     let* result := lift (rag fileId fileName fileSize) in
     if success result then
       updateProcessingStatus fileId completed (Some (chunkCount result))
     else
       updateProcessingStatus fileId failed None)
    (λ _, updateProcessingStatus fileId failed None).

(* The same function cut where it suspends on the collaborator: what runs
   inside the caller, and what runs when the collaborator has settled. *)
Definition processFileInBackground_start (fileId : string) : Db unit :=
  try_catch
    (updateProcessingStatus fileId processing None)
    (λ _, updateProcessingStatus fileId failed None).

Definition processFileInBackground_resume (job : BackgroundJob) : Db unit :=
  try_catch
    (let* result := lift (rag (job_fileId job) (job_fileName job) (job_fileSize job)) in
     if success result then
       updateProcessingStatus (job_fileId job) completed (Some (chunkCount result))
     else
       updateProcessingStatus (job_fileId job) failed None)
    (λ _, updateProcessingStatus (job_fileId job) failed None).

Definition existing_view (existingFile : FileRecord) : UploadedFile :=
  {| u_id := id existingFile;
     u_name := file_name existingFile;
     u_hash := file_hash existingFile;
     u_size := file_size existingFile;
     u_mimeType := mime_type existingFile;
     u_createdAt := created_at existingFile;
     u_processingStatus := processing_status existingFile;
     u_chunkCount := chunk_count existingFile |}.

Definition new_view (newFile : FileRecord) : UploadedFile :=
  {| u_id := id newFile;
     u_name := file_name newFile;
     u_hash := file_hash newFile;
     u_size := file_size newFile;
     u_mimeType := mime_type newFile;
     u_createdAt := created_at newFile;
     u_processingStatus := processing_status newFile;
     u_chunkCount := None |}.

Definition POST (file : option File) (uuidv4 : string) (now : Z)
    : Db (Response UploadBody * option BackgroundJob) :=
  try_catch
    (match file with
     | None =>
         ret (json_status (UploadError (Some "No file provided") None) 400, None)
     | Some file =>
         let validation := validateFile (File_size file) (type file) default_maxSizeBytes in
         if negb (isValid validation) then
           ret (json_status (UploadError (error validation) None) 400, None)
         else
           let buffer := content file in
           let fileHash := computeFileHash sha256_hex buffer in
           let* existingFile := findByHash fileHash in
           match existingFile with
           | Some existingFile =>
               ret (json (UploadResult true true "File already exists in the system"
                            (existing_view existingFile)), None)
           | None =>
               let metadata :=
                 generateFileMetadata (name file) (File_size file) (type file) fileHash in
               let* newFile := insertFile metadata uuidv4 now in
               spawn (processFileInBackground_start (id newFile)) ;;
               (* [newFile] is the object the store holds: the response
                  reads its fields as they are now. *)
               let* held := files_get (id newFile) in
               let newFile := default newFile held in
               ret (json (UploadResult true false
                            "File uploaded successfully and processing started"
                            (new_view newFile)),
                    Some {| job_fileId := id newFile;
                            job_fileName := name file;
                            job_fileSize := File_size file |})
           end
     end)
    (λ e, match e with
          | Error message =>
              ret (json_status (UploadError (Some "Internal server error") (Some message)) 500,
                   None)
          end).
End UploadRoute.

(** ** [app/api/files/route.ts] *)

Record ListedFile := mkListedFile {
  l_id : string;
  l_name : string;
  l_hash : string;
  l_size : Z;
  l_sizeFormatted : string;
  l_mimeType : string;
  l_createdAt : Z;
  l_processingStatus : ProcessingStatus;
  l_chunkCount : Z
}.

Record Pagination := mkPagination {
  p_limit : JsNumber;
  p_offset : JsNumber;
  p_total : Z;
  p_hasMore : bool
}.

Inductive FilesBody :=
  | FilesError (error : string) (message : string)
  | FilesResult (success : bool) (files : list ListedFile)
                (pagination : Pagination) (stats : Stats).

(* [a < b] is false when a side is [NaN]. *)
Definition js_lt (a b : JsNumber) : bool :=
  match a, b with
  | Int x, Int y => x <? y
  | _, _ => false
  end.

Section FilesRoute.
(* [parseInt] of the language, and [formatFileSize], whose digits come
   from floating point division and [toFixed]. *)
Variable parseInt : string → JsNumber.
Variable formatFileSize : Z → string.

(* [searchParams.get(key) || fallback]: [null] and the empty string are
   falsy. *)
Definition or_string (p : option string) (fallback : string) : string :=
  match p with
  | Some s => if decide (s = "") then fallback else s
  | None => fallback
  end.

Definition listed (file : FileRecord) : ListedFile :=
  {| l_id := id file;
     l_name := file_name file;
     l_hash := file_hash file;
     l_size := file_size file;
     l_sizeFormatted := formatFileSize (file_size file);
     l_mimeType := mime_type file;
     l_createdAt := created_at file;
     l_processingStatus := processing_status file;
     l_chunkCount := default 0 (chunk_count file) |}.

Definition GET (limitParam offsetParam : option string) : Db (Response FilesBody) :=
  try_catch
    (let limit := Math_min (parseInt (or_string limitParam "50")) (Int 100) in
     let offset := Math_max (parseInt (or_string offsetParam "0")) (Int 0) in
     let* files := getAllFiles limit offset in
     let* stats := getStats in
     let formattedFiles := listed <$> files in
     ret (json (FilesResult true formattedFiles
                  {| p_limit := limit;
                     p_offset := offset;
                     p_total := totalFiles stats;
                     p_hasMore := js_lt (js_add offset limit) (Int (totalFiles stats)) |}
                  stats)))
    (λ e, match e with
          | Error message =>
              ret (json_status (FilesError "Internal server error" message) 500)
          end).
End FilesRoute.

(** ** Histories of the store *)

Inductive Op :=
  | OpInsert (fileData : FileData) (uuidv4 : string) (now : Z)
  | OpUpdate (k : string) (status : ProcessingStatus) (chunkCount : option Z).

Definition apply_op (s : SimulatedDatabase) (o : Op) : SimulatedDatabase :=
  match o with
  | OpInsert fileData uuidv4 now => (insertFile fileData uuidv4 now s).2
  | OpUpdate k st c => (updateProcessingStatus k st c s).2
  end.

Definition run (ops : list Op) (s : SimulatedDatabase) : SimulatedDatabase :=
  foldl apply_op s ops.

(* What [uuidv4] promises: an identifier drawn for a new record is the key
   of no record.  None is drawn when the insert is refused. *)
Definition uuid_fresh (s : SimulatedDatabase) (o : Op) : bool :=
  match o with
  | OpInsert fileData uuidv4 _ =>
      bool_decide (is_Some (hashIndex s !! fd_file_hash fileData))
      || bool_decide (JsMap.get uuidv4 (files s) = None)
  | OpUpdate _ _ _ => true
  end.

Fixpoint uuids_fresh (ops : list Op) (s : SimulatedDatabase) : bool :=
  match ops with
  | [] => true
  | o :: ops' => uuid_fresh s o && uuids_fresh ops' (apply_op s o)
  end.

Fixpoint inserted_hashes (ops : list Op) : list string :=
  match ops with
  | [] => []
  | OpInsert fileData _ _ :: ops' => fd_file_hash fileData :: inserted_hashes ops'
  | OpUpdate _ _ _ :: ops' => inserted_hashes ops'
  end.

Definition records_with_hash (h : string) (s : SimulatedDatabase) : list FileRecord :=
  filter (λ r, file_hash r = h) (JsMap.values (files s)).

(* The sum of the values of an object used as a table of counters. *)
Definition sum_values (m : gmap string Z) : Z :=
  map_fold (λ _ v acc, v + acc) 0 m.

(* What a status update assigns to the record it finds. *)
Definition assign_status (st : ProcessingStatus) (c : option Z) (r : FileRecord) : FileRecord :=
  match c with
  | Some n => set_chunk_count n (set_status st r)
  | None => set_status st r
  end.

Definition terminal (st : ProcessingStatus) : bool :=
  match st with
  | completed | failed => true
  | pending | processing => false
  end.

(* Newest first. *)
Definition newer_or_same (a b : FileRecord) : Prop := created_at b <= created_at a.

(* The message and the record of [insertFile]. *)
Definition conflict_message (h : string) : string :=
  "File with hash " +:+ h +:+ " already exists".

Definition record_of (fileData : FileData) (uuidv4 : string) (now : Z) : FileRecord :=
  {| id := uuidv4;
     file_name := fd_file_name fileData;
     file_hash := fd_file_hash fileData;
     file_size := fd_file_size fileData;
     mime_type := fd_mime_type fileData;
     created_at := now;
     chunk_count := fd_chunk_count fileData;
     processing_status := fd_processing_status fileData |}.

(* The invariant of the store: one record for each fingerprint of the
   index, none for any other, and as many index entries as records. *)
Record store_ok (s : SimulatedDatabase) : Prop := mk_store_ok {
  ok_unique : ∀ h,
    length (records_with_hash h s)
    = if decide (is_Some (hashIndex s !! h)) then 1%nat else 0%nat;
  ok_size : size (hashIndex s) = length (files s)
}.

(* What the coordinator writes once the collaborator has settled. *)
Definition job_update (o : Outcome RagResult) : ProcessingStatus * option Z :=
  match o with
  | Returned result =>
      if success result then (completed, Some (chunkCount result)) else (failed, None)
  | Thrown _ => (failed, None)
  end.

Definition job_failed (o : Outcome RagResult) : bool :=
  match o with
  | Returned result => negb (success result)
  | Thrown _ => true
  end.

(* Status updates arriving one after the other. *)
Definition run_updates (us : list (string * ProcessingStatus * option Z))
    (s : SimulatedDatabase) : SimulatedDatabase :=
  foldl (λ s u, (updateProcessingStatus u.1.1 u.1.2 u.2 s).2) s us.

(* A store that holds one record, under key [u] and fingerprint [h]. *)
Definition single_record (u h : string) (s : SimulatedDatabase) : Prop :=
  ∃ r, files s = [(u, r)] ∧ id r = u ∧ file_hash r = h ∧ hashIndex s = {[ h := u ]}.

(** ** [fileUtils.ts]: [computeStreamHash] and [formatFileSize] *)

(* What a [Readable] emits to the three listeners. *)
Inductive StreamEvent :=
  | OnData (chunk : list Byte.byte)
  | OnEnd
  | OnError (e : JsError).

Section StreamHash.
(* The [Hash] object of [crypto]. *)
Context {Hash : Type}.
Variable createHash : Hash.
Variable update : Hash → list Byte.byte → Hash.
Variable digest : Hash → string.

(* The promise settles once, at the first ['end'] or ['error']; [None] is a
   promise still pending.  [totalBytes] is only logged. *)
Fixpoint computeStreamHash_from (hash : Hash) (events : list StreamEvent)
    : option (Outcome string) :=
  match events with
  | [] => None
  | OnData chunk :: events' => computeStreamHash_from (update hash chunk) events'
  | OnEnd :: _ => Some (Returned (digest hash))
  | OnError e :: _ => Some (Thrown e)
  end.

Definition computeStreamHash (events : list StreamEvent) : option (Outcome string) :=
  computeStreamHash_from createHash events.
End StreamHash.

(* [Number.MAX_SAFE_INTEGER] and [Number.isSafeInteger]: the integers on
   which the arithmetic of a [number] is that of the integers.  The two
   functions below, and the quotient of [simulateRAGProcessing], are the
   code on safe integers only: beyond them a quotient is rounded before it
   is floored, and [toFixed] turns to exponent notation from 1e21 on. *)
Definition MAX_SAFE_INTEGER : Z := 2 ^ 53 - 1.

Definition safe_integer (n : Z) : Prop :=
  - MAX_SAFE_INTEGER <= n <= MAX_SAFE_INTEGER.

(* [size] is [bytes / den] with [den] a power of 1024, which floating point
   holds exactly; [steps] is [units.length - 1 - unitIndex], so that the
   guard [unitIndex < units.length - 1] is [steps] not being zero. *)
Fixpoint scale_size (steps : nat) (bytes den : Z) (unitIndex : nat) : Z * nat :=
  match steps with
  | O => (den, unitIndex)
  | S steps' =>
      if 1024 * den <=? bytes
      then scale_size steps' bytes (1024 * den) (S unitIndex)
      else (den, unitIndex)
  end.

(* [(bytes / den).toFixed(1)] for a safe integer [bytes >= 0]: the integer
   [n] nearest to ten times the value, the larger one on a tie, printed
   with one decimal. *)
Definition tenths (bytes den : Z) : Z := (20 * bytes + den) `div` (2 * den).

Definition toFixed1 (bytes den : Z) : string :=
  pretty (tenths bytes den `div` 10) +:+ "." +:+ pretty (tenths bytes den `mod` 10).

(* [pretty bytes] is [bytes.toFixed(0)] for a safe integer [bytes]. *)
Definition format_with_units (units : list string) (bytes : Z) : string :=
  let '(den, unitIndex) := scale_size (length units - 1) bytes 1 0 in
  (if decide (unitIndex = 0%nat) then pretty bytes else toFixed1 bytes den)
  +:+ " " +:+ default "undefined" (units !! unitIndex).

Definition formatFileSize (bytes : Z) : string :=
  format_with_units ["B"; "KB"; "MB"; "GB"; "TB"] bytes.

(* The copy of the function inside the [FileUploadZone] component. *)
Definition FileUploadZone_formatFileSize (bytes : Z) : string :=
  format_with_units ["B"; "KB"; "MB"; "GB"] bytes.

(** ** [app/api/check-duplicate/[hash]/route.ts] and [app/api/stats/route.ts] *)

Definition in_range (lo hi c : Ascii.ascii) : bool :=
  (Ascii.nat_of_ascii lo <=? Ascii.nat_of_ascii c)%nat
  && (Ascii.nat_of_ascii c <=? Ascii.nat_of_ascii hi)%nat.

(* One character of [/^[a-f0-9]+$/i]. *)
Definition is_hex_digit (c : Ascii.ascii) : bool :=
  in_range "0"%char "9"%char c
  || in_range "a"%char "f"%char c
  || in_range "A"%char "F"%char c.

Fixpoint all_hex (s : string) : bool :=
  match s with
  | EmptyString => true
  | String c s' => is_hex_digit c && all_hex s'
  end.

(* [/^[a-f0-9]+$/i.test(hash)].  A string with a character outside ASCII
   fails it, so the length test beside it only decides for ASCII strings,
   where bytes and UTF-16 code units are the same count. *)
Definition hex_regex_test (hash : string) : bool :=
  negb (bool_decide (hash = "")) && all_hex hash.

(* [toLowerCase] on the letters of ASCII; the route applies it to strings
   of hexadecimal digits only. *)
Definition lower_ascii (c : Ascii.ascii) : Ascii.ascii :=
  if in_range "A"%char "Z"%char c then Ascii.ascii_of_nat (Ascii.nat_of_ascii c + 32) else c.

Fixpoint toLowerCase (s : string) : string :=
  match s with
  | EmptyString => EmptyString
  | String c s' => String (lower_ascii c) (toLowerCase s')
  end.

Inductive CheckBody :=
  | CheckError (error : string) (message : option string)
  | CheckFound (duplicate : bool) (file : UploadedFile)
  | CheckMissing (duplicate : bool) (message : string).

Module CheckDuplicateRoute.
Definition GET (hash : string) : Db (Response CheckBody) :=
  try_catch
    (if bool_decide (hash = "")
        || negb (bool_decide (String.length hash = 64%nat))
        || negb (hex_regex_test hash)
     then
       ret (json_status
              (CheckError "Invalid hash format. Expected 64-character hexadecimal string."
                 None) 400)
     else
       let* existingFile := findByHash (toLowerCase hash) in
       match existingFile with
       | Some existingFile => ret (json (CheckFound true (existing_view existingFile)))
       | None => ret (json (CheckMissing false "No file found with this hash"))
       end)
    (λ e, match e with
          | Error message =>
              ret (json_status (CheckError "Internal server error" (Some message)) 500)
          end).
End CheckDuplicateRoute.

Record StatsView := mkStatsView {
  v_totalFiles : Z;
  v_uniqueHashes : Z;
  v_duplicatesSaved : Z;
  v_processing : gmap string Z;
  v_timestamp : string
}.

Inductive StatsBody :=
  | StatsError (error : string) (message : string)
  | StatsResult (success : bool) (stats : StatsView).

Module StatsRoute.
(* [timestamp] is [new Date().toISOString()]. *)
Definition GET (timestamp : string) : Db (Response StatsBody) :=
  try_catch
    (let* stats := getStats in
     ret (json (StatsResult true
                  {| v_totalFiles := totalFiles stats;
                     v_uniqueHashes := uniqueHashes stats;
                     v_duplicatesSaved := totalFiles stats - uniqueHashes stats;
                     v_processing := processingStats stats;
                     v_timestamp := timestamp |})))
    (λ e, match e with
          | Error message =>
              ret (json_status (StatsError "Internal server error" message) 500)
          end).
End StatsRoute.

(** ** [app/api/upload/route.ts]: [POST] cut where it suspends *)

(* [POST] awaits the promise of [findByHash] before it goes on to
   [insertFile]: another request can run in between.  What [POST] has in
   hand at that point is an answer, or the file and its digest. *)
Inductive Lookup :=
  | Answered (response : Response UploadBody)
  | Missed (file : File) (fileHash : string).

Section UploadRouteSuspended.
Variable sha256_hex : list Byte.byte → string.

(* From the start of [POST] to the await of [db.findByHash(fileHash)]. *)
Definition POST_lookup (file : option File) : Db Lookup :=
  try_catch
    (match file with
     | None =>
         ret (Answered (json_status (UploadError (Some "No file provided") None) 400))
     | Some file =>
         let validation := validateFile (File_size file) (type file) default_maxSizeBytes in
         if negb (isValid validation) then
           ret (Answered (json_status (UploadError (error validation) None) 400))
         else
           let buffer := content file in
           let fileHash := computeFileHash sha256_hex buffer in
           let* existingFile := findByHash fileHash in
           match existingFile with
           | Some existingFile =>
               ret (Answered (json (UploadResult true true
                                      "File already exists in the system"
                                      (existing_view existingFile))))
           | None => ret (Missed file fileHash)
           end
     end)
    (λ e, match e with
          | Error message =>
              ret (Answered (json_status
                               (UploadError (Some "Internal server error") (Some message))
                               500))
          end).
End UploadRouteSuspended.

(* From there to the end of [POST], for a lookup that found nothing. *)
Definition POST_insert (file : File) (fileHash : string) (uuidv4 : string) (now : Z)
    : Db (Response UploadBody * option BackgroundJob) :=
  try_catch
    (let metadata :=
       generateFileMetadata (name file) (File_size file) (type file) fileHash in
     let* newFile := insertFile metadata uuidv4 now in
     spawn (processFileInBackground_start (id newFile)) ;;
     let* held := files_get (id newFile) in
     let newFile := default newFile held in
     ret (json (UploadResult true false
                  "File uploaded successfully and processing started"
                  (new_view newFile)),
          Some {| job_fileId := id newFile;
                  job_fileName := name file;
                  job_fileSize := File_size file |}))
    (λ e, match e with
          | Error message =>
              ret (json_status (UploadError (Some "Internal server error") (Some message)) 500,
                   None)
          end).

(** ** Histories, continued *)

(* The other half of what [uuidv4] promises: never the empty string. *)
Definition uuid_nonempty (o : Op) : bool :=
  match o with
  | OpInsert _ uuidv4 _ => negb (bool_decide (uuidv4 = ""))
  | OpUpdate _ _ _ => true
  end.

(* Every entry of the index leads to the record with that fingerprint. *)
Definition index_ok (s : SimulatedDatabase) : Prop :=
  ∀ h k, hashIndex s !! h = Some k →
    k ≠ "" ∧ ∃ r, JsMap.get k (files s) = Some r ∧ file_hash r = h ∧ id r = k.

(* The fields of a record no operation of the store assigns. *)
Definition same_identity (r r' : FileRecord) : Prop :=
  id r' = id r ∧ file_name r' = file_name r ∧ file_hash r' = file_hash r
  ∧ file_size r' = file_size r ∧ mime_type r' = mime_type r
  ∧ created_at r' = created_at r.

Definition with_status (st : ProcessingStatus) (l : list FileRecord) : list FileRecord :=
  filter (λ r, processing_status r = st) l.

Definition created_at_is (t : Z) (l : list FileRecord) : list FileRecord :=
  filter (λ r, created_at r = t) l.

(** ** Sample inputs *)

Definition w_data1 : FileData :=
  generateFileMetadata "a.txt" 13 "text/plain" "h1".

Definition w_data2 : FileData :=
  generateFileMetadata "b.txt" 700 "" "h2".

Definition w_ops : list Op :=
  [OpInsert w_data1 "id-1" 10; OpUpdate "id-1" processing None; OpInsert w_data1 "id-x" 11].

(* One record, still pending. *)
Definition w_pending : SimulatedDatabase :=
  run [OpInsert w_data1 "id-1" 10] db0.

(* One record, completed with five chunks. *)
Definition w_completed : SimulatedDatabase :=
  run [OpInsert w_data1 "id-1" 10;
       OpUpdate "id-1" processing None;
       OpUpdate "id-1" completed (Some 5)] db0.

(* The bytes of "Hello, World!" and the digest the test suite expects. *)
Definition w_hello : File :=
  {| name := "hello.txt"; type := "text/plain";
     content := [Byte.x48; Byte.x65; Byte.x6c; Byte.x6c; Byte.x6f; Byte.x2c; Byte.x20;
                 Byte.x57; Byte.x6f; Byte.x72; Byte.x6c; Byte.x64; Byte.x21] |}.

(* The same bytes under another name and without a declared type. *)
Definition w_hello_renamed : File :=
  {| name := "greeting.bin"; type := ""; content := content w_hello |}.

Definition w_empty : File :=
  {| name := "empty.txt"; type := "text/plain"; content := [] |}.

Definition w_sha : list Byte.byte → string :=
  λ _, "dffd6021bb2bd5b0af676290809ec3a53191dd81c7f70a4b28688a362182986f".

Definition w_rag_throws : string → string → Z → Outcome RagResult :=
  λ _ _ _, Thrown (Error "extraction failed").

(* A stand-in for [parseInt] on the two strings the samples pass. *)
Definition w_parseInt : string → JsNumber :=
  λ str, if decide (str = "-1") then Int (-1) else Int 0.

(* A [Hash] object that keeps what it is fed and prints its length. *)
Definition w_digest : list Byte.byte → string :=
  λ fed, pretty (Z.of_nat (length fed)).

(* The digest of the samples, spelled in capitals. *)
Definition w_hash_upper : string :=
  "DFFD6021BB2BD5B0AF676290809EC3A53191DD81C7F70A4B28688A362182986F".

(** * Properties *)

(** ** The cases of [__tests__/fileUtils.test.ts], run on the model *)

Example validateFile_accepts_valid :
  validateFile 1024 "text/plain" default_maxSizeBytes
  = {| isValid := true; error := None |}.
Proof. reflexivity. Qed.

Example validateFile_rejects_large :
  validateFile (200 * 1024 * 1024) "application/pdf" (100 * 1024 * 1024)
  = {| isValid := false;
       error := Some "File size (200MB) exceeds maximum allowed size (100MB)" |}.
Proof. vm_compute. reflexivity. Qed.

Example validateFile_rejects_empty :
  validateFile 0 "text/plain" default_maxSizeBytes
  = {| isValid := false; error := Some "File is empty" |}.
Proof. reflexivity. Qed.

Example generateFileMetadata_missing_type :
  fd_mime_type (generateFileMetadata "unknown.file" 512 "" "test_hash")
  = "application/octet-stream".
Proof. reflexivity. Qed.

Example simulateRAGProcessing_small :
  simulateRAGProcessing "test-id" "test.txt" 1000
  = Returned {| success := true; chunkCount := 1 |}.
Proof. reflexivity. Qed.

(* A record inserted, then processing, then completed with five chunks. *)
Example completed_with_five_chunks :
  (findById "id-1" w_completed).1
  = Returned (Some {| id := "id-1"; file_name := "a.txt"; file_hash := "h1";
                      file_size := 13; mime_type := "text/plain"; created_at := 10;
                      chunk_count := Some 5; processing_status := completed |})
  ∧ (∃ stats, (getStats w_completed).1 = Returned stats
                ∧ processingStats stats = {[ "completed" := 1 ]}).
Proof. split; [reflexivity|]. eexists. split; [reflexivity|]. vm_compute. reflexivity. Qed.

(* Equal timestamps keep their insertion order; newer records come first. *)
Example sort_is_stable :
  id <$> sort compare_created_at
           [record_of w_data1 "a" 5; record_of w_data1 "b" 9;
            record_of w_data1 "c" 5; record_of w_data1 "d" 9]
  = ["b"; "d"; "a"; "c"].
Proof. reflexivity. Qed.

(* [slice(0, -1)] drops the last element; [slice(NaN, NaN)] is empty. *)
Example slice_negative_end :
  slice [1; 2; 3; 4] (Int 0) (js_add (Int 0) (Int (-1))) = [1; 2; 3]
  ∧ slice [1; 2; 3; 4] NaN (js_add NaN (Int 2)) = []
  ∧ slice [1; 2; 3; 4] (Int 1) (js_add (Int 1) (Int 2)) = [2; 3].
Proof. repeat split. Qed.

(** ** The insertion-ordered map *)

Section JsMapFacts.
Context {V : Type}.
Implicit Types (m : list (string * V)) (k : string) (v : V) (f : V → V).

Lemma get_set_eq m k v : JsMap.get k (JsMap.set k v m) = Some v.
Proof.
  induction m as [|[k' v'] m IH]; simpl.
  - by rewrite decide_True.
  - destruct (decide (k = k')) as [->|Hne]; simpl.
    + by rewrite decide_True.
    + by rewrite decide_False.
Qed.

Lemma get_set_ne m k k' v : k ≠ k' → JsMap.get k' (JsMap.set k v m) = JsMap.get k' m.
Proof.
  intros Hne. induction m as [|[k0 v0] m IH]; simpl.
  - by rewrite decide_False.
  - destruct (decide (k = k0)) as [->|Hk]; simpl.
    + by rewrite !(decide_False (P := k' = k0)).
    + by rewrite IH.
Qed.

Lemma set_fresh m k v : JsMap.get k m = None → JsMap.set k v m = m ++ [(k, v)].
Proof.
  induction m as [|[k' v'] m IH]; simpl; [done|].
  destruct (decide (k = k')); [done|]. intros Hm. by rewrite IH.
Qed.

Lemma mutate_length m k f : length (JsMap.mutate k f m) = length m.
Proof.
  induction m as [|[k' v'] m IH]; simpl; [done|].
  destruct (decide (k = k')); simpl; by rewrite ?IH.
Qed.

Lemma mutate_absent m k f : JsMap.get k m = None → JsMap.mutate k f m = m.
Proof.
  induction m as [|[k' v'] m IH]; simpl; [done|].
  destruct (decide (k = k')); [done|]. intros Hm. by rewrite IH.
Qed.

Lemma mutate_mutate m k f g :
  JsMap.mutate k g (JsMap.mutate k f m) = JsMap.mutate k (g ∘ f) m.
Proof.
  induction m as [|[k' v'] m IH]; simpl; [done|].
  destruct (decide (k = k')) as [->|Hne]; simpl.
  - by rewrite decide_True.
  - by rewrite decide_False, IH.
Qed.

Lemma get_mutate_eq m k f : JsMap.get k (JsMap.mutate k f m) = f <$> JsMap.get k m.
Proof.
  induction m as [|[k' v'] m IH]; simpl; [done|].
  destruct (decide (k = k')) as [->|Hne]; simpl.
  - by rewrite decide_True.
  - by rewrite decide_False.
Qed.

Lemma get_mutate_ne m k k' f : k ≠ k' → JsMap.get k' (JsMap.mutate k f m) = JsMap.get k' m.
Proof.
  intros Hne. induction m as [|[k0 v0] m IH]; simpl; [done|].
  destruct (decide (k = k0)) as [->|Hk]; simpl.
  - by rewrite !(decide_False (P := k' = k0)).
  - by rewrite IH.
Qed.

Lemma mutate_fixed m k f v : JsMap.get k m = Some v → f v = v → JsMap.mutate k f m = m.
Proof.
  induction m as [|[k' v'] m IH]; simpl; [done|].
  destruct (decide (k = k')) as [->|Hne].
  - intros [= ->] ->. done.
  - intros Hm Hf. by rewrite IH.
Qed.

(* A mutation that keeps a projection of the value keeps the list of
   projections. *)
Lemma mutate_values_fmap {B} (p : V → B) m k f :
  (∀ v, p (f v) = p v) → p <$> JsMap.values (JsMap.mutate k f m) = p <$> JsMap.values m.
Proof.
  intros Hp. unfold JsMap.values.
  induction m as [|[k' v'] m IH]; csimpl; [done|].
  destruct (decide (k = k')); csimpl; [by rewrite Hp | by rewrite IH].
Qed.
End JsMapFacts.

(** ** The store operations, as equations *)

Lemma store_eta s : {| files := files s; hashIndex := hashIndex s |} = s.
Proof. by destruct s. Qed.

Lemma insertFile_present fileData uuidv4 now s :
  is_Some (hashIndex s !! fd_file_hash fileData) →
  insertFile fileData uuidv4 now s
  = (Thrown (Error (conflict_message (fd_file_hash fileData))), s).
Proof.
  intros Hin. unfold insertFile, bind, hashIndex_has.
  by rewrite bool_decide_eq_true_2.
Qed.

Lemma insertFile_absent fileData uuidv4 now s :
  hashIndex s !! fd_file_hash fileData = None →
  insertFile fileData uuidv4 now s
  = (Returned (record_of fileData uuidv4 now),
     {| files := JsMap.set uuidv4 (record_of fileData uuidv4 now) (files s);
        hashIndex := <[fd_file_hash fileData := uuidv4]> (hashIndex s) |}).
Proof.
  intros Hnone. unfold insertFile, bind, hashIndex_has.
  rewrite bool_decide_eq_false_2; [done|].
  rewrite Hnone. by intros [? ?].
Qed.

Lemma updateProcessingStatus_eq k st c s :
  updateProcessingStatus k st c s
  = (Returned (),
     {| files := JsMap.mutate k (assign_status st c) (files s);
        hashIndex := hashIndex s |}).
Proof.
  unfold updateProcessingStatus, bind, files_get.
  destruct (JsMap.get k (files s)) as [r|] eqn:Hget.
  - destruct c as [n|]; simpl; [|done].
    unfold files_mutate; simpl. by rewrite mutate_mutate.
  - unfold ret. rewrite mutate_absent by done. by rewrite store_eta.
Qed.

Lemma assign_status_hash st c r : file_hash (assign_status st c r) = file_hash r.
Proof. by destruct c. Qed.

Lemma assign_status_id st c r : id (assign_status st c r) = id r.
Proof. by destruct c. Qed.

Lemma assign_status_status st c r : processing_status (assign_status st c r) = st.
Proof. by destruct c. Qed.

Lemma assign_status_chunk_count st c r :
  chunk_count (assign_status st c r) = from_option Some (chunk_count r) c.
Proof. by destruct c. Qed.

Lemma assign_status_same r c :
  (c = None ∨ c = chunk_count r) →
  assign_status (processing_status r) c r = r.
Proof. destruct r as [? ? ? ? ? ? cc ?]; intros [->| ->]; [done|]. by destruct cc. Qed.

(** ** The uniqueness invariant *)

Lemma filter_hash_length (h : string) (l l' : list FileRecord) :
  file_hash <$> l = file_hash <$> l' →
  length (filter (λ r, file_hash r = h) l) = length (filter (λ r, file_hash r = h) l').
Proof.
  revert l'. induction l as [|r l IH]; intros [|r' l']; csimpl; try done.
  intros [= Hr Hl]. rewrite !filter_cons, Hr.
  destruct (decide (file_hash r' = h)); simpl; by rewrite (IH l').
Qed.

Lemma store_ok_db0 : store_ok db0.
Proof.
  split; [|done]. intros h. simpl. by rewrite lookup_empty, decide_False by (by intros [? ?]).
Qed.

Lemma store_ok_update k st c s :
  store_ok s → store_ok (updateProcessingStatus k st c s).2.
Proof.
  intros [Hu Hs]. rewrite updateProcessingStatus_eq. split; simpl.
  - intros h. rewrite <- Hu. unfold records_with_hash; simpl.
    apply filter_hash_length, mutate_values_fmap, assign_status_hash.
  - by rewrite mutate_length.
Qed.

Lemma store_ok_insert fileData uuidv4 now s :
  store_ok s →
  uuid_fresh s (OpInsert fileData uuidv4 now) = true →
  store_ok (insertFile fileData uuidv4 now s).2.
Proof.
  intros [Hu Hs] Hfresh. simpl in Hfresh.
  destruct (decide (is_Some (hashIndex s !! fd_file_hash fileData))) as [Hin|Hout].
  { by rewrite insertFile_present. }
  rewrite bool_decide_eq_false_2 in Hfresh by done. simpl in Hfresh.
  apply bool_decide_eq_true_1 in Hfresh.
  assert (hashIndex s !! fd_file_hash fileData = None) as Hnone.
  { destruct (hashIndex s !! fd_file_hash fileData) eqn:E; [|done]. destruct Hout; eauto. }
  rewrite insertFile_absent by done. simpl.
  rewrite set_fresh by done. split; simpl.
  - intros h. unfold records_with_hash, JsMap.values; simpl.
    rewrite fmap_app, filter_app, length_app. csimpl.
    specialize (Hu h). unfold records_with_hash, JsMap.values in Hu. rewrite Hu.
    rewrite filter_cons, filter_nil. simpl.
    destruct (decide (fd_file_hash fileData = h)) as [<-|Hne].
    + rewrite lookup_insert_eq. rewrite decide_False by done.
      by rewrite decide_True by eauto.
    + rewrite lookup_insert_ne by done. simpl. lia.
  - rewrite map_size_insert_None by done. rewrite length_app. simpl. lia.
Qed.

Lemma store_ok_apply_op s o : store_ok s → uuid_fresh s o = true → store_ok (apply_op s o).
Proof.
  destruct o; simpl.
  - intros Hok Hf. by apply store_ok_insert.
  - intros Hok _. by apply store_ok_update.
Qed.

Lemma store_ok_run ops s : store_ok s → uuids_fresh ops s = true → store_ok (run ops s).
Proof.
  revert s. induction ops as [|o ops IH]; intros s Hok Hf; simpl in *; [done|].
  apply andb_prop in Hf as [Ho Hops].
  apply IH; [by apply store_ok_apply_op | done].
Qed.

Lemma run_app ops ops' s : run (ops ++ ops') s = run ops' (run ops s).
Proof. unfold run. apply foldl_app. Qed.

Lemma uuids_fresh_app ops ops' s :
  uuids_fresh (ops ++ ops') s = uuids_fresh ops s && uuids_fresh ops' (run ops s).
Proof.
  revert s. induction ops as [|o ops IH]; intros s; simpl; [done|].
  by rewrite IH, andb_assoc.
Qed.

Lemma inserted_hashes_app ops ops' :
  inserted_hashes (ops ++ ops') = inserted_hashes ops ++ inserted_hashes ops'.
Proof.
  induction ops as [|[d u n|k st c] ops IH]; simpl; [done| |done]. by rewrite IH.
Qed.

(* The index holds exactly the fingerprints handed to [insertFile]. *)
Lemma hashIndex_apply_op s o h :
  is_Some (hashIndex (apply_op s o) !! h)
  ↔ h ∈ inserted_hashes [o] ∨ is_Some (hashIndex s !! h).
Proof.
  destruct o as [d u n|k st c]; simpl.
  - destruct (decide (is_Some (hashIndex s !! fd_file_hash d))) as [Hin|Hout].
    + rewrite insertFile_present by done. simpl. rewrite list_elem_of_singleton.
      split; [by right|]. by intros [->|?].
    + assert (hashIndex s !! fd_file_hash d = None) as Hnone.
      { destruct (hashIndex s !! fd_file_hash d) eqn:E; [|done]. destruct Hout; eauto. }
      rewrite insertFile_absent by done. simpl. rewrite list_elem_of_singleton.
      destruct (decide (fd_file_hash d = h)) as [<-|Hne].
      * rewrite lookup_insert_eq. split; [by left | eauto].
      * rewrite lookup_insert_ne by done. split; [by right|]. by intros [?|?].
  - rewrite updateProcessingStatus_eq. simpl. rewrite elem_of_nil. tauto.
Qed.

Lemma hashIndex_run ops s h :
  is_Some (hashIndex (run ops s) !! h)
  ↔ h ∈ inserted_hashes ops ∨ is_Some (hashIndex s !! h).
Proof.
  revert s. induction ops as [|o ops IH]; intros s.
  - simpl. rewrite elem_of_nil. tauto.
  - change (run (o :: ops) s) with (run ops (apply_op s o)).
    rewrite IH, hashIndex_apply_op.
    change (o :: ops) with ([o] ++ ops). rewrite inserted_hashes_app, elem_of_app.
    tauto.
Qed.

Lemma present_iff s h :
  store_ok s →
  (∃ r, r ∈ JsMap.values (files s) ∧ file_hash r = h) ↔ is_Some (hashIndex s !! h).
Proof.
  intros [Hu _]. specialize (Hu h). unfold records_with_hash in Hu.
  destruct (decide (is_Some (hashIndex s !! h))) as [Hin|Hout].
  - split; [done|]. intros _.
    destruct (filter (λ r, file_hash r = h) (JsMap.values (files s))) as [|r l] eqn:E;
      [done|].
    assert (r ∈ filter (λ r, file_hash r = h) (JsMap.values (files s))) as Hr
      by (rewrite E; left).
    apply list_elem_of_filter in Hr as [? ?]. eauto.
  - split; [|done]. intros (r & Hr & Hh).
    apply nil_length_inv in Hu.
    assert (r ∈ filter (λ r, file_hash r = h) (JsMap.values (files s))) as Hr'
      by (by apply list_elem_of_filter).
    rewrite Hu in Hr'. by apply elem_of_nil in Hr'.
Qed.

(** ** Claims about the record store *)

(** C1. In every store reached by inserts and status updates,
    [insertFile] of a fingerprint some record already has throws the
    "already exists" error and leaves the store as it was; of a fingerprint
    no record has, it returns the new record and adds it, and only it, to
    the store; and afterwards the store holds exactly one record for each
    fingerprint ever handed to [insertFile] and none for any other. *)
Theorem insertFile_conflict_or_unique
    (ops : list Op) (fileData : FileData) (uuidv4 : string) (now : Z)
    (Hfresh : uuids_fresh (ops ++ [OpInsert fileData uuidv4 now]) db0 = true) :
  let s := run ops db0 in
  let h := fd_file_hash fileData in
  ((∃ r, r ∈ JsMap.values (files s) ∧ file_hash r = h) →
     insertFile fileData uuidv4 now s
     = (Thrown (Error ("File with hash " +:+ h +:+ " already exists")), s))
  ∧ ((∀ r, r ∈ JsMap.values (files s) → file_hash r ≠ h) →
     ∃ r, insertFile fileData uuidv4 now s
          = (Returned r,
             {| files := files s ++ [(uuidv4, r)];
                hashIndex := <[h := uuidv4]> (hashIndex s) |})
          ∧ id r = uuidv4 ∧ file_hash r = h
          ∧ file_name r = fd_file_name fileData
          ∧ file_size r = fd_file_size fileData
          ∧ mime_type r = fd_mime_type fileData
          ∧ processing_status r = fd_processing_status fileData)
  ∧ (∀ h',
       length (records_with_hash h' (insertFile fileData uuidv4 now s).2)
       = if decide (h' ∈ inserted_hashes (ops ++ [OpInsert fileData uuidv4 now]))
         then 1%nat else 0%nat).
Proof.
  intros s h.
  rewrite uuids_fresh_app in Hfresh. apply andb_prop in Hfresh as [Hops Hlast].
  simpl in Hlast. rewrite andb_true_r in Hlast. fold s in Hlast.
  assert (store_ok s) as Hok by (apply store_ok_run; [apply store_ok_db0 | done]).
  split; [|split].
  - intros Hex. apply present_iff in Hex; [|done]. by apply insertFile_present.
  - intros Hnone.
    assert (hashIndex s !! h = None) as Hidx.
    { destruct (hashIndex s !! h) eqn:E; [|done].
      assert (is_Some (hashIndex s !! h)) as Hin by (rewrite E; eauto).
      apply present_iff in Hin as (r & Hr & Hh); [|done]. by destruct (Hnone r Hr). }
    exists (record_of fileData uuidv4 now).
    rewrite insertFile_absent by done.
    fold h in Hlast. rewrite Hidx in Hlast.
    rewrite bool_decide_eq_false_2 in Hlast by (by intros [? ?]).
    apply bool_decide_eq_true_1 in Hlast.
    by rewrite set_fresh by done.
  - intros h'.
    pose proof (store_ok_run (ops ++ [OpInsert fileData uuidv4 now]) db0 store_ok_db0) as Hok'.
    rewrite uuids_fresh_app, Hops in Hok'. simpl in Hok'. fold s in Hok'.
    rewrite run_app in Hok'. fold s in Hok'. simpl in Hok'.
    rewrite Hlast in Hok'. specialize (Hok' eq_refl).
    destruct Hok' as [Hu _]. rewrite (Hu h').
    pose proof (hashIndex_run (ops ++ [OpInsert fileData uuidv4 now]) db0 h') as Hdom.
    rewrite run_app in Hdom. fold s in Hdom. simpl in Hdom.
    destruct (decide (is_Some (hashIndex (insertFile fileData uuidv4 now s).2 !! h')))
      as [Hin|Hout].
    + rewrite decide_True; [done|]. apply Hdom in Hin as [?|Hin]; [done|].
      rewrite lookup_empty in Hin. by destruct Hin.
    + rewrite decide_False; [done|]. intros Hel. apply Hout, Hdom. by left.
Qed.

Lemma insertFile_conflict_or_unique_witness :
  uuids_fresh (w_ops ++ [OpInsert w_data2 "id-2" 20]) db0 = true
  ∧ length (records_with_hash "h2" (insertFile w_data2 "id-2" 20 (run w_ops db0)).2) = 1%nat.
Proof.
  split; [vm_compute; reflexivity|].
  exact (proj2 (proj2 (insertFile_conflict_or_unique w_ops w_data2 "id-2" 20 eq_refl)) "h2").
Defined.

(** ** The background job, as status updates *)

Section JobFacts.
Variable rag : string → string → Z → Outcome RagResult.

Lemma processFileInBackground_eq fileId fileName fileSize s :
  processFileInBackground rag fileId fileName fileSize s
  = updateProcessingStatus fileId
      (job_update (rag fileId fileName fileSize)).1
      (job_update (rag fileId fileName fileSize)).2
      (updateProcessingStatus fileId processing None s).2.
Proof.
  unfold processFileInBackground, try_catch, bind, lift.
  rewrite (updateProcessingStatus_eq fileId processing). simpl.
  destruct (rag fileId fileName fileSize) as [result|e]; simpl; [|done].
  destruct (success result); simpl; by rewrite !updateProcessingStatus_eq.
Qed.

Lemma processFileInBackground_start_eq fileId s :
  processFileInBackground_start fileId s = updateProcessingStatus fileId processing None s.
Proof.
  unfold processFileInBackground_start, try_catch.
  by rewrite updateProcessingStatus_eq.
Qed.

Lemma processFileInBackground_resume_eq job s :
  processFileInBackground_resume rag job s
  = updateProcessingStatus (job_fileId job)
      (job_update (rag (job_fileId job) (job_fileName job) (job_fileSize job))).1
      (job_update (rag (job_fileId job) (job_fileName job) (job_fileSize job))).2
      s.
Proof.
  unfold processFileInBackground_resume, try_catch, bind, lift.
  destruct (rag _ _ _) as [result|e]; simpl; [|by rewrite updateProcessingStatus_eq].
  destruct (success result); simpl; by rewrite !updateProcessingStatus_eq.
Qed.

(* The function is its two segments run one after the other. *)
Lemma processFileInBackground_split fileId fileName fileSize s :
  processFileInBackground rag fileId fileName fileSize s
  = (processFileInBackground_start fileId ;;
     processFileInBackground_resume rag
       {| job_fileId := fileId; job_fileName := fileName; job_fileSize := fileSize |}) s.
Proof.
  rewrite processFileInBackground_eq. unfold bind.
  rewrite processFileInBackground_start_eq, (updateProcessingStatus_eq fileId processing).
  simpl. by rewrite processFileInBackground_resume_eq.
Qed.
End JobFacts.

Lemma findById_update_eq k st c s :
  (findById k (updateProcessingStatus k st c s).2).1
  = Returned (assign_status st c <$> JsMap.get k (files s)).
Proof.
  rewrite updateProcessingStatus_eq. unfold findById, files_get; simpl.
  by rewrite get_mutate_eq.
Qed.

Lemma findById_update_ne k k' st c s :
  k ≠ k' →
  (findById k' (updateProcessingStatus k st c s).2).1 = (findById k' s).1.
Proof.
  intros Hne. rewrite updateProcessingStatus_eq. unfold findById, files_get; simpl.
  by rewrite get_mutate_ne.
Qed.

(** C3, as stated, fails.  A status update into [failed] that carries a
    chunk count writes it: the record had none and has five afterwards. *)
Lemma updateProcessingStatus_failed_sets_chunk_count :
  (chunk_count <$> JsMap.get "id-1" (files w_pending)) = Some None
  ∧ updateProcessingStatus "id-1" failed (Some 5) w_pending
    = (Returned (),
       {| files := [("id-1",
                     {| id := "id-1"; file_name := "a.txt"; file_hash := "h1";
                        file_size := 13; mime_type := "text/plain"; created_at := 10;
                        chunk_count := Some 5; processing_status := failed |})];
          hashIndex := {[ "h1" := "id-1" ]} |}).
Proof. split; [reflexivity|]. vm_compute. reflexivity. Qed.

(** C3, amended.  A status update changes the chunk count of the record it
    names exactly when it carries one, whatever the new status: without
    one the chunk count stays, with one it becomes the value carried; no
    other record changes.  The coordinator carries a chunk count only into
    [completed]: a run of [processFileInBackground] that changed a record's
    chunk count left that record [completed]. *)
Theorem chunk_count_set_only_with_argument
    (s : SimulatedDatabase) (k : string) (r : FileRecord)
    (Hr : (findById k s).1 = Returned (Some r)) :
  (∀ st, ∃ r',
      (findById k (updateProcessingStatus k st None s).2).1 = Returned (Some r')
      ∧ chunk_count r' = chunk_count r)
  ∧ (∀ st n, ∃ r',
      (findById k (updateProcessingStatus k st (Some n) s).2).1 = Returned (Some r')
      ∧ chunk_count r' = Some n)
  ∧ (∀ k' st c, k' ≠ k →
      (findById k (updateProcessingStatus k' st c s).2).1 = Returned (Some r))
  ∧ (∀ rag fileId fileName fileSize r',
      (findById k (processFileInBackground rag fileId fileName fileSize s).2).1
      = Returned (Some r') →
      chunk_count r' ≠ chunk_count r →
      processing_status r' = completed).
Proof.
  assert (JsMap.get k (files s) = Some r) as Hget by (by injection Hr).
  repeat split.
  - intros st. exists (assign_status st None r).
    by rewrite findById_update_eq, Hget.
  - intros st n. exists (assign_status st (Some n) r).
    by rewrite findById_update_eq, Hget.
  - intros k' st c Hne. by rewrite findById_update_ne.
  - intros rag fileId fileName fileSize r' Hr' Hchg.
    rewrite processFileInBackground_eq in Hr'.
    destruct (decide (fileId = k)) as [->|Hne].
    + rewrite findById_update_eq, updateProcessingStatus_eq in Hr'. simpl in Hr'.
      rewrite get_mutate_eq, Hget in Hr'. simpl in Hr'. injection Hr' as <-.
      destruct (rag k fileName fileSize) as [result|e]; simpl in *; [|done].
      by destruct (success result).
    + rewrite !findById_update_ne in Hr' by done. congruence.
Qed.

Lemma chunk_count_set_only_with_argument_witness :
  (findById "id-1" w_pending).1
  = Returned (Some (record_of w_data1 "id-1" 10))
  ∧ ∃ r', (findById "id-1" (updateProcessingStatus "id-1" failed None w_pending).2).1
          = Returned (Some r')
          ∧ chunk_count r' = chunk_count (record_of w_data1 "id-1" 10).
Proof.
  split; [reflexivity|].
  exact (proj1 (chunk_count_set_only_with_argument
                  w_pending "id-1" (record_of w_data1 "id-1" 10) eq_refl) failed).
Defined.

(** C4, as stated, fails.  A record that is [completed] takes a status
    update into [failed]: the call returns, and the stored status is
    [failed]. *)
Lemma updateProcessingStatus_overwrites_completed :
  (processing_status <$> JsMap.get "id-1" (files w_completed)) = Some completed
  ∧ updateProcessingStatus "id-1" failed None w_completed
    = (Returned (),
       {| files := [("id-1",
                     {| id := "id-1"; file_name := "a.txt"; file_hash := "h1";
                        file_size := 13; mime_type := "text/plain"; created_at := 10;
                        chunk_count := Some 5; processing_status := failed |})];
          hashIndex := {[ "h1" := "id-1" ]} |}).
Proof. split; [reflexivity|]. vm_compute. reflexivity. Qed.

(** C4, amended.  On a record whose status is terminal, a status update
    never throws: with any status, a different terminal one included, it
    returns and the stored status is the new one; with the status the
    record has and the chunk count it has (or none), it leaves the whole
    store as it was. *)
Theorem terminal_status_update_accepted
    (s : SimulatedDatabase) (k : string) (r : FileRecord)
    (Hr : (findById k s).1 = Returned (Some r))
    (Hterminal : terminal (processing_status r) = true) :
  (∀ st c, ∃ r',
      (updateProcessingStatus k st c s).1 = Returned ()
      ∧ (findById k (updateProcessingStatus k st c s).2).1 = Returned (Some r')
      ∧ processing_status r' = st)
  ∧ (∀ c, c = None ∨ c = chunk_count r →
      updateProcessingStatus k (processing_status r) c s = (Returned (), s)).
Proof.
  assert (JsMap.get k (files s) = Some r) as Hget by (by injection Hr).
  split.
  - intros st c. exists (assign_status st c r). split; [|split].
    + by rewrite updateProcessingStatus_eq.
    + by rewrite findById_update_eq, Hget.
    + apply assign_status_status.
  - intros c Hc. rewrite updateProcessingStatus_eq.
    rewrite (mutate_fixed _ _ _ r) by (done || by apply assign_status_same).
    by rewrite store_eta.
Qed.

Lemma terminal_status_update_accepted_witness :
  (findById "id-1" w_completed).1
  = Returned (Some (assign_status completed (Some 5) (record_of w_data1 "id-1" 10)))
  ∧ updateProcessingStatus "id-1" completed (Some 5) w_completed = (Returned (), w_completed).
Proof.
  split; [reflexivity|].
  exact (proj2 (terminal_status_update_accepted w_completed "id-1"
                  (assign_status completed (Some 5) (record_of w_data1 "id-1" 10))
                  eq_refl eq_refl) (Some 5) (or_intror eq_refl)).
Defined.

(** C10. Each of the four queries returns and leaves the store as it
    was: the records, their order and the fingerprint index after the call
    are those before it. *)
Theorem queries_leave_store_unchanged
    (s : SimulatedDatabase) (hash k : string) (limit offset : JsNumber) :
  (∃ found, findByHash hash s = (Returned found, s))
  ∧ (∃ found, findById k s = (Returned found, s))
  ∧ (∃ page, getAllFiles limit offset s = (Returned page, s))
  ∧ (∃ stats, getStats s = (Returned stats, s))
  ∧ files (findByHash hash s).2 = files s
  ∧ hashIndex (findByHash hash s).2 = hashIndex s
  ∧ files (findById k s).2 = files s
  ∧ hashIndex (findById k s).2 = hashIndex s
  ∧ files (getAllFiles limit offset s).2 = files s
  ∧ hashIndex (getAllFiles limit offset s).2 = hashIndex s
  ∧ files (getStats s).2 = files s
  ∧ hashIndex (getStats s).2 = hashIndex s.
Proof.
  assert (∃ found, findByHash hash s = (Returned found, s)) as [found Hh].
  { unfold findByHash, bind, hashIndex_get.
    destruct (hashIndex s !! hash) as [k'|]; simpl; [|by eexists].
    destruct (decide (k' = "")); by eexists. }
  rewrite Hh. repeat split; by eexists.
Qed.

(** ** Statistics *)

Lemma sum_values_count_status acc file :
  sum_values (count_status acc file) = sum_values acc + 1.
Proof.
  unfold count_status, sum_values.
  set (key := status_string (processing_status file)).
  assert (∀ (m : gmap string Z) (j1 j2 : string) (z1 z2 y : Z),
            j1 ≠ j2 → m !! j1 = Some z1 → m !! j2 = Some z2 →
            z1 + (z2 + y) = z2 + (z1 + y)) as Hcomm by (intros; lia).
  destruct (acc !! key) as [n|] eqn:E; simpl.
  - rewrite <- insert_delete_eq.
    rewrite map_fold_insert_L; [|by apply Hcomm|by apply lookup_delete_eq].
    rewrite (map_fold_delete_L _ _ key n acc); [lia|by apply Hcomm|done].
  - rewrite map_fold_insert_L; [lia|by apply Hcomm|done].
Qed.

Lemma sum_values_foldl acc (l : list FileRecord) :
  sum_values (foldl count_status acc l) = sum_values acc + Z.of_nat (length l).
Proof.
  revert acc. induction l as [|file l IH]; intros acc; simpl; [lia|].
  rewrite IH, sum_values_count_status. lia.
Qed.

Lemma getStats_eq s :
  getStats s
  = (Returned {| totalFiles := Z.of_nat (length (files s));
                 uniqueHashes := Z.of_nat (size (hashIndex s));
                 processingStats := foldl count_status ∅ (JsMap.values (files s)) |},
     s).
Proof. done. Qed.

(** C6. After any sequence of inserts and status updates on the empty
    store, [getStats] returns, its [uniqueHashes] equals its [totalFiles],
    and the values of its [processingStats] add up to [totalFiles]. *)
Theorem getStats_consistent
    (ops : list Op) (Hfresh : uuids_fresh ops db0 = true) :
  ∃ stats,
    getStats (run ops db0) = (Returned stats, run ops db0)
    ∧ uniqueHashes stats = totalFiles stats
    ∧ sum_values (processingStats stats) = totalFiles stats.
Proof.
  eexists. split; [apply getStats_eq|]. simpl. split.
  - destruct (store_ok_run ops db0 store_ok_db0 Hfresh) as [_ Hsize]. by rewrite Hsize.
  - rewrite sum_values_foldl. unfold sum_values, JsMap.values.
    rewrite map_fold_empty, length_fmap. lia.
Qed.

Lemma getStats_consistent_witness :
  uuids_fresh w_ops db0 = true
  ∧ ∃ stats,
      getStats (run w_ops db0) = (Returned stats, run w_ops db0)
      ∧ uniqueHashes stats = totalFiles stats
      ∧ sum_values (processingStats stats) = totalFiles stats.
Proof.
  split; [vm_compute; reflexivity|].
  exact (getStats_consistent w_ops eq_refl).
Defined.

(** ** The upload route *)

Lemma validateFile_ok size type :
  size ≠ 0 → size <= default_maxSizeBytes →
  validateFile size type default_maxSizeBytes = {| isValid := true; error := None |}.
Proof.
  intros Hne Hle. unfold validateFile.
  destruct (Z.ltb_spec default_maxSizeBytes size); [lia|].
  by destruct (Z.eqb_spec size 0).
Qed.

Lemma findByHash_state hash s : (findByHash hash s).2 = s.
Proof.
  unfold findByHash, bind, hashIndex_get.
  destruct (hashIndex s !! hash) as [k'|]; simpl; [|done].
  by destruct (decide (k' = "")).
Qed.

Lemma POST_duplicate_eq sha256_hex s file uuidv4 now existingFile :
  File_size file ≠ 0 →
  File_size file <= default_maxSizeBytes →
  (findByHash (computeFileHash sha256_hex (content file)) s).1
  = Returned (Some existingFile) →
  POST sha256_hex (Some file) uuidv4 now s
  = (Returned (json (UploadResult true true "File already exists in the system"
                       (existing_view existingFile)), None), s).
Proof.
  intros Hnonempty Hlimit Hfound.
  unfold POST, try_catch, bind. rewrite validateFile_ok by done. simpl.
  pose proof (findByHash_state (computeFileHash sha256_hex (content file)) s) as Hst.
  destruct (findByHash (computeFileHash sha256_hex (content file)) s) as [o s'].
  simpl in *. by subst.
Qed.



(** C7. An upload of no bytes is answered 400 with "File is empty", an
    upload of more bytes than the maximum is answered 400 with the
    "exceeds maximum allowed size" message; in both cases the answer is
    the same whatever the hash function, the store is left as it was, and
    no background job is started.  [validateFile] draws the same two cases
    under any maximum that is not negative. *)
Theorem upload_rejects_empty_and_too_large
    (sha256_hex : list Byte.byte → string) (s : SimulatedDatabase)
    (file : File) (uuidv4 : string) (now : Z)
    (Hinvalid : File_size file = 0 ∨ default_maxSizeBytes < File_size file) :
  (∃ message,
     POST sha256_hex (Some file) uuidv4 now s
     = (Returned (json_status (UploadError (Some message) None) 400, None), s)
     ∧ (File_size file = 0 → message = "File is empty")
     ∧ (default_maxSizeBytes < File_size file →
        message = "File size (" +:+ pretty (round_megabytes (File_size file))
                  +:+ "MB) exceeds maximum allowed size (100MB)")
     ∧ (∀ other_hash : list Byte.byte → string,
          POST other_hash (Some file) uuidv4 now s
          = POST sha256_hex (Some file) uuidv4 now s))
  ∧ (∀ type maxSizeBytes, 0 <= maxSizeBytes →
       validateFile 0 type maxSizeBytes
       = {| isValid := false; error := Some "File is empty" |})
  ∧ (∀ size type maxSizeBytes, maxSizeBytes < size →
       validateFile size type maxSizeBytes
       = {| isValid := false;
            error := Some ("File size (" +:+ pretty (round_megabytes size)
                           +:+ "MB) exceeds maximum allowed size ("
                           +:+ pretty (round_megabytes maxSizeBytes) +:+ "MB)") |}).
Proof.
  split; [|split].
  - unfold POST, try_catch, bind, validateFile.
    destruct Hinvalid as [Hempty|Hlarge].
    + rewrite Hempty. simpl. exists "File is empty".
      split; [done|]. split; [done|]. split; [|done].
      intros Hlarge. by compute in Hlarge.
    + destruct (Z.ltb_spec default_maxSizeBytes (File_size file)); [|lia]. simpl.
      eexists. split; [reflexivity|]. split; [|split; [|done]].
      * intros Hempty. rewrite Hempty in Hlarge. by compute in Hlarge.
      * intros _. by vm_compute (pretty (round_megabytes default_maxSizeBytes)).
  - intros type maxSizeBytes Hmax. unfold validateFile.
    by destruct (Z.ltb_spec maxSizeBytes 0); [lia|].
  - intros size type maxSizeBytes Hlarge. unfold validateFile.
    by destruct (Z.ltb_spec maxSizeBytes size); [|lia].
Qed.

Lemma upload_rejects_empty_and_too_large_witness :
  (File_size w_empty = 0 ∨ default_maxSizeBytes < File_size w_empty)
  ∧ ∃ message,
      POST w_sha (Some w_empty) "id-1" 10 w_pending
      = (Returned (json_status (UploadError (Some message) None) 400, None), w_pending)
      ∧ (File_size w_empty = 0 → message = "File is empty")
      ∧ (default_maxSizeBytes < File_size w_empty →
         message = "File size (" +:+ pretty (round_megabytes (File_size w_empty))
                   +:+ "MB) exceeds maximum allowed size (100MB)")
      ∧ (∀ other_hash : list Byte.byte → string,
           POST other_hash (Some w_empty) "id-1" 10 w_pending
           = POST w_sha (Some w_empty) "id-1" 10 w_pending).
Proof.
  split; [by left|].
  exact (proj1 (upload_rejects_empty_and_too_large w_sha w_pending w_empty "id-1" 10
                  (or_introl eq_refl))).
Defined.

(** *** Two uploads of the same bytes *)

Lemma single_record_update u h k st c s :
  single_record u h s → single_record u h (updateProcessingStatus k st c s).2.
Proof.
  intros (r & Hfiles & Hid & Hhash & Hidx).
  rewrite updateProcessingStatus_eq. unfold single_record; simpl. rewrite Hfiles. simpl.
  destruct (decide (k = u)).
  - exists (assign_status st c r).
    by rewrite assign_status_id, assign_status_hash.
  - by exists r.
Qed.

Lemma single_record_run_updates u h us s :
  single_record u h s → single_record u h (run_updates us s).
Proof.
  revert s. induction us as [|[[k st] c] us IH]; intros s Hs; [done|].
  apply IH. by apply single_record_update.
Qed.

Lemma POST_new_on_db0 sha256_hex file uuidv4 now :
  File_size file ≠ 0 → File_size file <= default_maxSizeBytes →
  ∃ newFile s1,
    POST sha256_hex (Some file) uuidv4 now db0
    = (Returned (json (UploadResult true false
                         "File uploaded successfully and processing started"
                         (new_view newFile)),
                 Some {| job_fileId := uuidv4; job_fileName := name file;
                         job_fileSize := File_size file |}),
       s1)
    ∧ id newFile = uuidv4
    ∧ single_record uuidv4 (computeFileHash sha256_hex (content file)) s1.
Proof.
  intros Hne Hle. unfold POST, try_catch, bind. rewrite validateFile_ok by done. simpl.
  unfold findByHash, bind, hashIndex_get. simpl. rewrite lookup_empty. simpl.
  rewrite insertFile_absent by apply lookup_empty. simpl.
  unfold spawn. rewrite processFileInBackground_start_eq, updateProcessingStatus_eq.
  simpl. repeat (rewrite decide_True by done; simpl).
  eexists _, _. split; [reflexivity|]. split; [done|].
  eexists. split; [reflexivity|]. split; [done|]. split; [done|]. apply insert_empty.
Qed.

Lemma POST_duplicate_on_single sha256_hex file uuidv4 now u s :
  File_size file ≠ 0 → File_size file <= default_maxSizeBytes → u ≠ "" →
  single_record u (computeFileHash sha256_hex (content file)) s →
  ∃ existingFile,
    POST sha256_hex (Some file) uuidv4 now s
    = (Returned (json (UploadResult true true "File already exists in the system"
                         (existing_view existingFile)), None), s)
    ∧ id existingFile = u
    ∧ files s = [(u, existingFile)].
Proof.
  intros Hne Hle Hu (r & Hfiles & Hid & Hhash & Hidx).
  exists r. split; [|done].
  apply POST_duplicate_eq; [done..|].
  unfold findByHash, bind, hashIndex_get. simpl.
  rewrite Hidx, lookup_singleton_eq. simpl. rewrite decide_False by done.
  unfold files_get. simpl. rewrite Hfiles. simpl. by rewrite decide_True.
Qed.

(** C2. On the empty store, two uploads of the same bytes, non-empty and
    within the size limit, under whatever names and types: the first
    answers [duplicate = false] with the identifier drawn for it, the
    second answers [duplicate = true] with that same identifier, whatever
    status updates the background job has made in between; and [getStats]
    then counts one file. *)
Theorem upload_twice_is_idempotent
    (sha256_hex : list Byte.byte → string) (file1 file2 : File)
    (uuid1 uuid2 : string) (now1 now2 : Z)
    (between : list (string * ProcessingStatus * option Z))
    (Hsame : content file2 = content file1)
    (Hnonempty : File_size file1 ≠ 0)
    (Hlimit : File_size file1 <= default_maxSizeBytes)
    (Huuid : uuid1 ≠ "") :
  ∃ first second job s1 stats,
    POST sha256_hex (Some file1) uuid1 now1 db0
    = (Returned (json (UploadResult true false
                         "File uploaded successfully and processing started" first),
                 Some job), s1)
    ∧ u_id first = uuid1
    ∧ POST sha256_hex (Some file2) uuid2 now2 (run_updates between s1)
      = (Returned (json (UploadResult true true
                           "File already exists in the system" second),
                   None), run_updates between s1)
    ∧ u_id second = uuid1
    ∧ getStats (run_updates between s1) = (Returned stats, run_updates between s1)
    ∧ totalFiles stats = 1.
Proof.
  destruct (POST_new_on_db0 sha256_hex file1 uuid1 now1 Hnonempty Hlimit)
    as (newFile & s1 & Hfirst & Hid & Hsingle).
  apply (single_record_run_updates _ _ between) in Hsingle.
  assert (File_size file2 = File_size file1) as Hsize
    by (unfold File_size; by rewrite Hsame).
  rewrite <- Hsame in Hsingle. rewrite <- Hsize in Hnonempty, Hlimit.
  destruct (POST_duplicate_on_single sha256_hex file2 uuid2 now2 uuid1 _
              Hnonempty Hlimit Huuid Hsingle) as (existingFile & Hsecond & Hid2 & Hfiles).
  eexists _, _, _, s1, _. split; [exact Hfirst|]. split; [exact Hid|].
  split; [exact Hsecond|]. split; [exact Hid2|].
  split; [apply getStats_eq|]. simpl. by rewrite Hfiles.
Qed.

Lemma upload_twice_is_idempotent_witness :
  content w_hello_renamed = content w_hello
  ∧ File_size w_hello ≠ 0
  ∧ File_size w_hello <= default_maxSizeBytes
  ∧ "id-1" ≠ ""
  ∧ ∃ first second job s1 stats,
      POST w_sha (Some w_hello) "id-1" 10 db0
      = (Returned (json (UploadResult true false
                           "File uploaded successfully and processing started" first),
                   Some job), s1)
      ∧ u_id first = "id-1"
      ∧ POST w_sha (Some w_hello_renamed) "id-2" 20
          (run_updates [("id-1", completed, Some 1)] s1)
        = (Returned (json (UploadResult true true
                             "File already exists in the system" second),
                     None), run_updates [("id-1", completed, Some 1)] s1)
      ∧ u_id second = "id-1"
      ∧ getStats (run_updates [("id-1", completed, Some 1)] s1)
        = (Returned stats, run_updates [("id-1", completed, Some 1)] s1)
      ∧ totalFiles stats = 1.
Proof.
  split; [reflexivity|]. split; [done|]. split; [done|]. split; [done|].
  exact (upload_twice_is_idempotent w_sha w_hello w_hello_renamed "id-1" "id-2" 10 20
           [("id-1", completed, Some 1)] eq_refl ltac:(done) ltac:(done) ltac:(done)).
Defined.

(** ** The background job *)

Lemma processFileInBackground_never_throws rag fileId fileName fileSize s :
  (processFileInBackground rag fileId fileName fileSize s).1 = Returned ()
  ∧ (processFileInBackground_resume rag
       {| job_fileId := fileId; job_fileName := fileName; job_fileSize := fileSize |} s).1
    = Returned ().
Proof.
  rewrite processFileInBackground_eq, processFileInBackground_resume_eq.
  by rewrite !updateProcessingStatus_eq.
Qed.

(** C8. For a record the store holds, a run of [processFileInBackground]
    whose collaborator throws, or returns without success, returns without
    throwing and leaves the record [failed]; so does the part of the run
    that resumes once the collaborator has settled. *)
Theorem job_failure_recorded_as_failed
    (rag : string → string → Z → Outcome RagResult) (s : SimulatedDatabase)
    (fileId fileName : string) (fileSize : Z) (r : FileRecord)
    (Hr : (findById fileId s).1 = Returned (Some r))
    (Hfailed : job_failed (rag fileId fileName fileSize) = true) :
  let job := {| job_fileId := fileId; job_fileName := fileName; job_fileSize := fileSize |} in
  ∃ r1 r2,
    (processFileInBackground rag fileId fileName fileSize s).1 = Returned ()
    ∧ (findById fileId (processFileInBackground rag fileId fileName fileSize s).2).1
      = Returned (Some r1)
    ∧ processing_status r1 = failed
    ∧ (processFileInBackground_resume rag job s).1 = Returned ()
    ∧ (findById fileId (processFileInBackground_resume rag job s).2).1
      = Returned (Some r2)
    ∧ processing_status r2 = failed.
Proof.
  intros job.
  assert (JsMap.get fileId (files s) = Some r) as Hget by (by injection Hr).
  destruct (processFileInBackground_never_throws rag fileId fileName fileSize s)
    as [Hrun Hresume].
  assert ((job_update (rag fileId fileName fileSize)).1 = failed) as Hst.
  { destruct (rag fileId fileName fileSize) as [result|e]; simpl in *; [|done].
    by destruct (success result). }
  exists (assign_status failed (job_update (rag fileId fileName fileSize)).2
            (assign_status processing None r)),
         (assign_status failed (job_update (rag fileId fileName fileSize)).2 r).
  split; [exact Hrun|]. split; [|split; [apply assign_status_status|]].
  { rewrite processFileInBackground_eq, findById_update_eq, Hst.
    rewrite updateProcessingStatus_eq. simpl. by rewrite get_mutate_eq, Hget. }
  split; [exact Hresume|]. split; [|apply assign_status_status].
  rewrite processFileInBackground_resume_eq. subst job.
  cbn [job_fileId job_fileName job_fileSize].
  by rewrite findById_update_eq, Hst, Hget.
Qed.

Lemma job_failure_recorded_as_failed_witness :
  (findById "id-1" w_pending).1 = Returned (Some (record_of w_data1 "id-1" 10))
  ∧ job_failed (w_rag_throws "id-1" "a.txt" 13) = true
  ∧ ∃ r1 r2,
      (processFileInBackground w_rag_throws "id-1" "a.txt" 13 w_pending).1 = Returned ()
      ∧ (findById "id-1" (processFileInBackground w_rag_throws "id-1" "a.txt" 13 w_pending).2).1
        = Returned (Some r1)
      ∧ processing_status r1 = failed
      ∧ (processFileInBackground_resume w_rag_throws
           {| job_fileId := "id-1"; job_fileName := "a.txt"; job_fileSize := 13 |}
           w_pending).1 = Returned ()
      ∧ (findById "id-1"
           (processFileInBackground_resume w_rag_throws
              {| job_fileId := "id-1"; job_fileName := "a.txt"; job_fileSize := 13 |}
              w_pending).2).1
        = Returned (Some r2)
      ∧ processing_status r2 = failed.
Proof.
  split; [reflexivity|]. split; [reflexivity|].
  exact (job_failure_recorded_as_failed w_rag_throws w_pending "id-1" "a.txt" 13
           (record_of w_data1 "id-1" 10) eq_refl eq_refl).
Defined.

(** ** The listing route *)

Global Instance newer_or_same_trans : Transitive newer_or_same.
Proof. unfold newer_or_same. intros a b c ? ?. lia. Qed.

Lemma sort_insert_perm cmp x l : sort_insert cmp x l ≡ₚ x :: l.
Proof.
  induction l as [|y l IH]; simpl; [done|].
  destruct (cmp x y <=? 0); [done|].
  rewrite IH. apply Permutation_swap.
Qed.

Lemma sort_perm cmp l : sort cmp l ≡ₚ l.
Proof.
  unfold sort. induction l as [|x l IH]; simpl; [done|].
  by rewrite sort_insert_perm, IH.
Qed.

Lemma sort_insert_sorted x l :
  StronglySorted newer_or_same l →
  StronglySorted newer_or_same (sort_insert compare_created_at x l).
Proof.
  induction 1 as [|y l Hl IH Hy]; simpl.
  - repeat constructor.
  - unfold compare_created_at at 1.
    destruct (Z.leb_spec (created_at y - created_at x) 0) as [Hle|Hgt].
    + assert (newer_or_same x y) as Hxy by (unfold newer_or_same; lia).
      constructor; [by constructor|].
      constructor; [done|].
      eapply Forall_impl; [exact Hy|]. intros z Hz. by transitivity y.
    + constructor; [done|].
      rewrite sort_insert_perm. constructor; [|done].
      unfold newer_or_same. lia.
Qed.

Lemma sort_sorted l : StronglySorted newer_or_same (sort compare_created_at l).
Proof.
  unfold sort. induction l as [|x l IH]; simpl; [constructor|].
  by apply sort_insert_sorted.
Qed.

Lemma StronglySorted_take_drop {A} (R : relation A) (l : list A) n k :
  StronglySorted R l → StronglySorted R (take n (drop k l)).
Proof.
  intros Hl.
  rewrite <- (take_drop k l) in Hl. apply StronglySorted_app in Hl as (_ & _ & Hd).
  rewrite <- (take_drop n (drop k l)) in Hd. by apply StronglySorted_app in Hd as (_ & Ht & _).
Qed.

Lemma slice_sorted {A} (R : relation A) (l : list A) start stop :
  StronglySorted R l → StronglySorted R (slice l start stop).
Proof. apply StronglySorted_take_drop. Qed.

Lemma slice_sublist {A} (l : list A) start stop : slice l start stop `sublist_of` l.
Proof.
  unfold slice. etransitivity; [apply sublist_take | apply sublist_drop].
Qed.

(* With an offset that is not negative and a limit that is not negative,
   [slice] skips [offset] elements and keeps at most [limit]. *)
Lemma slice_page {A} (l : list A) o n :
  0 <= o → 0 <= n →
  slice l (Int o) (js_add (Int o) (Int n)) = take (Z.to_nat n) (drop (Z.to_nat o) l).
Proof.
  intros Ho Hn. unfold slice, relative_index. simpl.
  destruct (Z.ltb_spec o 0); [lia|]. destruct (Z.ltb_spec (o + n) 0); [lia|].
  destruct (decide (Z.of_nat (length l) <= o)) as [Hge|Hlt].
  - rewrite !drop_ge by lia. by rewrite !take_nil.
  - rewrite (Z.min_l o) by lia.
    destruct (decide (o + n <= Z.of_nat (length l))) as [Hin|Hout].
    + rewrite (Z.min_l (o + n)) by lia. f_equal. lia.
    + rewrite (Z.min_r (o + n)) by lia.
      rewrite !take_ge; [done| |]; rewrite length_drop; lia.
Qed.

(* As soon as a pagination parameter is [NaN], the page is empty. *)
Lemma slice_NaN {A} (l : list A) a b :
  a = NaN ∨ b = NaN → slice l a (js_add a b) = [].
Proof.
  intros Hnan. unfold slice, relative_index.
  assert (js_add a b = NaN) as -> by (destruct Hnan as [-> | ->]; by destruct a || done).
  simpl. rewrite (Z.min_l 0) by lia.
  set (k := if to_integer a <? 0 then _ else _).
  assert (0 <= k) as Hk by (subst k; destruct (Z.ltb_spec (to_integer a) 0); lia).
  by replace (Z.to_nat (Z.max (0 - k) 0)) with 0%nat by lia.
Qed.

Lemma getAllFiles_eq limit offset s :
  getAllFiles limit offset s
  = (Returned (slice (sort compare_created_at (JsMap.values (files s)))
                 offset (js_add offset limit)), s).
Proof. done. Qed.

(** C9. Whatever the store and the [limit] and [offset] of the query,
    [GET] answers with a page of the records sorted newest first by
    [created_at]: a run of consecutive records of that sorted list, itself
    sorted newest first.  The limit it uses is the smaller of the parsed
    one and 100, the offset the larger of the parsed one and 0; with a
    limit that is not negative the page skips [offset] records, holds at
    most [limit] of them and so at most 100, and when a parameter does not
    parse to a number the page is empty. *)
Theorem list_newest_first_with_clamped_page
    (parseInt : string → JsNumber) (formatFileSize : Z → string)
    (s : SimulatedDatabase) (limitParam offsetParam : option string) :
  let limit := Math_min (parseInt (or_string limitParam "50")) (Int 100) in
  let offset := Math_max (parseInt (or_string offsetParam "0")) (Int 0) in
  let newest_first := sort compare_created_at (JsMap.values (files s)) in
  ∃ page pagination stats,
    GET parseInt formatFileSize limitParam offsetParam s
    = (Returned (json (FilesResult true (listed formatFileSize <$> page) pagination stats)), s)
    ∧ page = slice newest_first offset (js_add offset limit)
    ∧ StronglySorted newer_or_same page
    ∧ StronglySorted (λ a b, l_createdAt b <= l_createdAt a) (listed formatFileSize <$> page)
    ∧ StronglySorted newer_or_same newest_first
    ∧ newest_first ≡ₚ JsMap.values (files s)
    ∧ page `sublist_of` newest_first
    ∧ p_limit pagination = limit
    ∧ p_offset pagination = offset
    ∧ (∀ n, limit = Int n → n <= 100)
    ∧ (∀ o, offset = Int o → 0 <= o)
    ∧ (∀ o n, offset = Int o → limit = Int n → 0 <= n →
         page = take (Z.to_nat n) (drop (Z.to_nat o) newest_first)
         ∧ (length page ≤ 100)%nat)
    ∧ (limit = NaN ∨ offset = NaN → page = []).
Proof.
  intros limit offset newest_first.
  assert (∀ n, limit = Int n → n <= 100) as Hlimit.
  { subst limit. intros n.
    destruct (parseInt (or_string limitParam "50")); simpl; [by intros ?|].
    intros [= <-]. lia. }
  assert (∀ o, offset = Int o → 0 <= o) as Hoffset.
  { subst offset. intros o.
    destruct (parseInt (or_string offsetParam "0")); simpl; [by intros ?|].
    intros [= <-]. lia. }
  assert (StronglySorted newer_or_same newest_first) as Hsorted by apply sort_sorted.
  exists (slice newest_first offset (js_add offset limit)). eexists _, _.
  split.
  { unfold GET, try_catch, bind. fold limit offset.
    rewrite getAllFiles_eq, getStats_eq. fold newest_first. reflexivity. }
  split; [done|].
  split; [by apply slice_sorted|].
  split.
  { apply (StronglySorted_fmap _ newer_or_same); [done|]. by apply slice_sorted. }
  split; [done|].
  split; [apply sort_perm|].
  split; [apply slice_sublist|].
  split; [done|]. split; [done|]. split; [done|]. split; [done|].
  split.
  - intros o n -> -> Hn.
    rewrite slice_page by (done || by apply Hoffset).
    split; [done|]. rewrite length_take.
    pose proof (Hlimit n eq_refl). lia.
  - intros Hnan. apply slice_NaN. tauto.
Qed.

(** * Further properties of the code *)

(** ** The record store *)

Lemma get_elem_of_values {V} (m : list (string * V)) k v :
  JsMap.get k m = Some v → v ∈ JsMap.values m.
Proof.
  unfold JsMap.values. induction m as [|[k' v'] m IH]; simpl; [done|].
  destruct (decide (k = k')).
  - intros [= ->]. left.
  - intros Hm. right. by apply IH.
Qed.

Lemma get_app_Some {V} (m m' : list (string * V)) k v :
  JsMap.get k m = Some v → JsMap.get k (m ++ m') = Some v.
Proof.
  induction m as [|[k' v'] m IH]; simpl; [done|].
  by destruct (decide (k = k')).
Qed.

Lemma findById_eq k s : findById k s = (Returned (JsMap.get k (files s)), s).
Proof. done. Qed.

Lemma findByHash_eq h s :
  findByHash h s
  = (Returned (match hashIndex s !! h with
               | Some k => if decide (k = "") then None else JsMap.get k (files s)
               | None => None
               end), s).
Proof.
  unfold findByHash, bind, hashIndex_get.
  destruct (hashIndex s !! h) as [k|]; simpl; [|done].
  by destruct (decide (k = "")).
Qed.

(** X1. An insert of a fingerprint the index does not hold, under an
    identifier that is not the empty string, returns a record that
    [findByHash] of the fingerprint and [findById] of the identifier both
    return afterwards. *)
Theorem insertFile_then_lookup
    (s : SimulatedDatabase) (fileData : FileData) (uuidv4 : string) (now : Z)
    (Hnew : hashIndex s !! fd_file_hash fileData = None)
    (Huuid : uuidv4 ≠ "") :
  ∃ record s',
    insertFile fileData uuidv4 now s = (Returned record, s')
    ∧ findByHash (fd_file_hash fileData) s' = (Returned (Some record), s')
    ∧ findById uuidv4 s' = (Returned (Some record), s')
    ∧ id record = uuidv4
    ∧ file_hash record = fd_file_hash fileData
    ∧ created_at record = now.
Proof.
  eexists _, _. split; [by apply insertFile_absent|].
  rewrite findByHash_eq, findById_eq. simpl.
  rewrite lookup_insert_eq, decide_False by done.
  by rewrite get_set_eq.
Qed.

Lemma insertFile_then_lookup_witness :
  hashIndex w_pending !! fd_file_hash w_data2 = None
  ∧ "id-2" ≠ ""
  ∧ ∃ record s',
      insertFile w_data2 "id-2" 20 w_pending = (Returned record, s')
      ∧ findByHash (fd_file_hash w_data2) s' = (Returned (Some record), s')
      ∧ findById "id-2" s' = (Returned (Some record), s')
      ∧ id record = "id-2"
      ∧ file_hash record = fd_file_hash w_data2
      ∧ created_at record = 20.
Proof.
  split; [reflexivity|]. split; [done|].
  exact (insertFile_then_lookup w_pending w_data2 "id-2" 20 eq_refl ltac:(done)).
Defined.

(** *** The index leads to the records *)

Lemma index_ok_db0 : index_ok db0.
Proof. intros h k. simpl. by rewrite lookup_empty. Qed.

Lemma index_ok_update k st c s :
  index_ok s → index_ok (updateProcessingStatus k st c s).2.
Proof.
  intros Hok h k' Hh. rewrite updateProcessingStatus_eq in *. simpl in *.
  destruct (Hok h k' Hh) as (Hne & r & Hget & Hhash & Hid). split; [done|].
  destruct (decide (k = k')) as [->|Hk].
  - exists (assign_status st c r).
    by rewrite get_mutate_eq, Hget, assign_status_hash, assign_status_id.
  - exists r. by rewrite get_mutate_ne.
Qed.

Lemma index_ok_insert fileData uuidv4 now s :
  index_ok s →
  uuid_fresh s (OpInsert fileData uuidv4 now) = true →
  uuidv4 ≠ "" →
  index_ok (insertFile fileData uuidv4 now s).2.
Proof.
  intros Hok Hfresh Hne. simpl in Hfresh.
  destruct (decide (is_Some (hashIndex s !! fd_file_hash fileData))) as [Hin|Hout].
  { by rewrite insertFile_present. }
  rewrite bool_decide_eq_false_2 in Hfresh by done. simpl in Hfresh.
  apply bool_decide_eq_true_1 in Hfresh.
  assert (hashIndex s !! fd_file_hash fileData = None) as Hnone.
  { destruct (hashIndex s !! fd_file_hash fileData) eqn:E; [|done]. destruct Hout; eauto. }
  rewrite insertFile_absent by done. intros h k. simpl.
  destruct (decide (fd_file_hash fileData = h)) as [<-|Hh].
  - rewrite lookup_insert_eq. intros [= <-]. split; [done|].
    exists (record_of fileData uuidv4 now). by rewrite get_set_eq.
  - rewrite lookup_insert_ne by done. intros Hk.
    destruct (Hok h k Hk) as (Hkne & r & Hget & Hhash & Hid). split; [done|].
    exists r. rewrite get_set_ne; [done|]. intros ->. congruence.
Qed.

Lemma index_ok_run ops s :
  index_ok s → uuids_fresh ops s = true → forallb uuid_nonempty ops = true →
  index_ok (run ops s).
Proof.
  revert s. induction ops as [|o ops IH]; intros s Hok Hf Hn; simpl in *; [done|].
  apply andb_prop in Hf as [Ho Hops]. apply andb_prop in Hn as [Hno Hns].
  apply IH; [|done..].
  destruct o as [d u n|k st c]; simpl.
  - apply index_ok_insert; [done..|].
    simpl in Hno. apply negb_true_iff, bool_decide_eq_false_1 in Hno. done.
  - by apply index_ok_update.
Qed.

Lemma length_one_unique {A} (l : list A) x y :
  length l = 1%nat → x ∈ l → y ∈ l → x = y.
Proof.
  destruct l as [|z [|? ?]]; [done| |done]. intros _.
  rewrite !list_elem_of_singleton. congruence.
Qed.

Lemma findByHash_exact s h r :
  store_ok s → index_ok s →
  (findByHash h s).1 = Returned (Some r)
  ↔ r ∈ JsMap.values (files s) ∧ file_hash r = h.
Proof.
  intros Hstore Hindex. rewrite findByHash_eq. simpl. split.
  - destruct (hashIndex s !! h) as [k|] eqn:Hk; [|done].
    destruct (Hindex h k Hk) as (Hne & r' & Hget & Hhash & _).
    rewrite decide_False, Hget by done. intros [= <-].
    split; [by eapply get_elem_of_values|done].
  - intros [Hr Hh].
    assert (is_Some (hashIndex s !! h)) as [k Hk] by (apply present_iff; eauto).
    destruct (Hindex h k Hk) as (Hne & r' & Hget & Hhash & _).
    rewrite Hk, decide_False, Hget by done. do 2 f_equal.
    pose proof (ok_unique s Hstore h) as Hu.
    rewrite decide_True in Hu by eauto.
    apply (length_one_unique _ _ _ Hu); apply list_elem_of_filter; split; try done.
    by eapply get_elem_of_values.
Qed.

(** X2. In a store reached from the empty one with identifiers that are
    fresh and not empty, [findByHash] returns a record exactly when that
    record is in the store and has the fingerprint asked for: it never
    misses a stored fingerprint and never returns a record of another. *)
Theorem findByHash_finds_exactly
    (ops : list Op) (h : string) (r : FileRecord)
    (Hfresh : uuids_fresh ops db0 = true)
    (Hnonempty : forallb uuid_nonempty ops = true) :
  (findByHash h (run ops db0)).1 = Returned (Some r)
  ↔ r ∈ JsMap.values (files (run ops db0)) ∧ file_hash r = h.
Proof.
  apply findByHash_exact.
  - by apply store_ok_run; [apply store_ok_db0|].
  - by apply index_ok_run; [apply index_ok_db0|..].
Qed.

Lemma findByHash_finds_exactly_witness :
  uuids_fresh w_ops db0 = true
  ∧ forallb uuid_nonempty w_ops = true
  ∧ ((findByHash "h1" (run w_ops db0)).1
     = Returned (Some (set_status processing (record_of w_data1 "id-1" 10)))
     ↔ set_status processing (record_of w_data1 "id-1" 10)
         ∈ JsMap.values (files (run w_ops db0))
       ∧ file_hash (set_status processing (record_of w_data1 "id-1" 10)) = "h1").
Proof.
  split; [vm_compute; reflexivity|]. split; [vm_compute; reflexivity|].
  exact (findByHash_finds_exactly w_ops "h1"
           (set_status processing (record_of w_data1 "id-1" 10)) eq_refl eq_refl).
Defined.

(** X3. A status update for an identifier no record has returns without
    an error and leaves the store as it was. *)
Theorem updateProcessingStatus_unknown_id
    (s : SimulatedDatabase) (k : string) (st : ProcessingStatus) (c : option Z)
    (Hmissing : (findById k s).1 = Returned None) :
  updateProcessingStatus k st c s = (Returned (), s).
Proof.
  assert (JsMap.get k (files s) = None) as Hget by (by injection Hmissing).
  rewrite updateProcessingStatus_eq, mutate_absent by done. by rewrite store_eta.
Qed.

Lemma updateProcessingStatus_unknown_id_witness :
  (findById "id-9" w_pending).1 = Returned None
  ∧ updateProcessingStatus "id-9" failed (Some 3) w_pending = (Returned (), w_pending).
Proof.
  split; [reflexivity|].
  exact (updateProcessingStatus_unknown_id w_pending "id-9" failed (Some 3) eq_refl).
Defined.

Lemma assign_status_identity st c r : same_identity r (assign_status st c r).
Proof. by destruct c. Qed.

Lemma same_identity_refl r : same_identity r r.
Proof. by repeat split. Qed.

Lemma same_identity_trans r1 r2 r3 :
  same_identity r1 r2 → same_identity r2 r3 → same_identity r1 r3.
Proof. unfold same_identity. intros ? ?. repeat split; destruct_and!; congruence. Qed.

Lemma mutate_fst {V} (m : list (string * V)) k f : (JsMap.mutate k f m).*1 = m.*1.
Proof.
  induction m as [|[k' v'] m IH]; csimpl; [done|].
  destruct (decide (k = k')); csimpl; [done | by rewrite IH].
Qed.

(** X4. A status update of a record the store holds assigns the status
    (and the chunk count) and nothing else: the record keeps its
    identifier, name, fingerprint, size, type and creation time, every
    other record is as before, the records keep their keys and order, and
    the fingerprint index is the same. *)
Theorem updateProcessingStatus_frame
    (s : SimulatedDatabase) (k : string) (st : ProcessingStatus) (c : option Z)
    (r : FileRecord)
    (Hr : (findById k s).1 = Returned (Some r)) :
  let s' := (updateProcessingStatus k st c s).2 in
  (∃ r', (findById k s').1 = Returned (Some r')
         ∧ same_identity r r'
         ∧ processing_status r' = st)
  ∧ (∀ k', k' ≠ k → (findById k' s').1 = (findById k' s).1)
  ∧ (files s').*1 = (files s).*1
  ∧ hashIndex s' = hashIndex s
  ∧ (∀ h, (findByHash h s').1 = Returned None ↔ (findByHash h s).1 = Returned None).
Proof.
  intros s'. subst s'.
  assert (JsMap.get k (files s) = Some r) as Hget by (by injection Hr).
  split; [|split; [|split; [|split]]].
  - exists (assign_status st c r). rewrite findById_update_eq, Hget.
    split; [done|]. split; [apply assign_status_identity | apply assign_status_status].
  - intros k' Hne. by apply findById_update_ne.
  - rewrite updateProcessingStatus_eq. apply mutate_fst.
  - by rewrite updateProcessingStatus_eq.
  - intros h. rewrite !findByHash_eq, updateProcessingStatus_eq. simpl.
    destruct (hashIndex s !! h) as [k'|]; [|done].
    destruct (decide (k' = "")); [done|].
    destruct (decide (k = k')) as [<-|Hne].
    + by rewrite get_mutate_eq, Hget.
    + by rewrite get_mutate_ne.
Qed.

Lemma updateProcessingStatus_frame_witness :
  (findById "id-1" w_pending).1 = Returned (Some (record_of w_data1 "id-1" 10))
  ∧ hashIndex (updateProcessingStatus "id-1" completed (Some 4) w_pending).2
    = hashIndex w_pending.
Proof.
  split; [reflexivity|].
  exact (proj1 (proj2 (proj2 (proj2
           (updateProcessingStatus_frame w_pending "id-1" completed (Some 4)
              (record_of w_data1 "id-1" 10) eq_refl))))).
Defined.

Lemma apply_op_persists s o k r :
  JsMap.get k (files s) = Some r →
  uuid_fresh s o = true →
  ∃ r', JsMap.get k (files (apply_op s o)) = Some r' ∧ same_identity r r'
        ∧ (length (files s) ≤ length (files (apply_op s o)))%nat.
Proof.
  intros Hget Hfresh. destruct o as [d u n|k' st c]; simpl in *.
  - destruct (decide (is_Some (hashIndex s !! fd_file_hash d))) as [Hin|Hout].
    { rewrite insertFile_present by done. exists r.
      split; [done|]. split; [apply same_identity_refl|done]. }
    rewrite bool_decide_eq_false_2 in Hfresh by done. simpl in Hfresh.
    apply bool_decide_eq_true_1 in Hfresh.
    assert (hashIndex s !! fd_file_hash d = None) as Hnone.
    { destruct (hashIndex s !! fd_file_hash d) eqn:E; [|done]. destruct Hout; eauto. }
    rewrite insertFile_absent by done. simpl. rewrite set_fresh by done.
    exists r. split; [by apply get_app_Some|]. split; [apply same_identity_refl|].
    rewrite length_app. lia.
  - rewrite updateProcessingStatus_eq. simpl. rewrite mutate_length.
    destruct (decide (k' = k)) as [->|Hne].
    + exists (assign_status st c r). rewrite get_mutate_eq, Hget.
      split; [done|]. split; [apply assign_status_identity|done].
    + exists r. rewrite get_mutate_ne by done.
      split; [done|]. split; [apply same_identity_refl|done].
Qed.

(** X5. No operation of the store deletes or re-identifies a record: along
    any sequence of inserts and status updates with fresh identifiers, a
    record found under an identifier is still found under it, with the
    same identifier, name, fingerprint, size, type and creation time, and
    the number of records never goes down. *)
Theorem records_persist
    (s : SimulatedDatabase) (ops : list Op) (k : string) (r : FileRecord)
    (Hr : (findById k s).1 = Returned (Some r))
    (Hfresh : uuids_fresh ops s = true) :
  ∃ r', (findById k (run ops s)).1 = Returned (Some r')
        ∧ same_identity r r'
        ∧ (length (files s) ≤ length (files (run ops s)))%nat.
Proof.
  assert (JsMap.get k (files s) = Some r) as Hget by (by injection Hr). clear Hr.
  assert (∃ r', JsMap.get k (files (run ops s)) = Some r' ∧ same_identity r r'
                ∧ (length (files s) ≤ length (files (run ops s)))%nat)
    as (r' & Hget' & Hsame & Hlen).
  { revert s r Hget Hfresh.
    induction ops as [|o ops IH]; intros s r Hget Hfresh; simpl in *.
    - exists r. split; [done|]. split; [apply same_identity_refl|done].
    - apply andb_prop in Hfresh as [Ho Hops].
      destruct (apply_op_persists s o k r Hget Ho) as (r1 & Hget1 & Hsame1 & Hlen1).
      destruct (IH _ r1 Hget1 Hops) as (r2 & Hget2 & Hsame2 & Hlen2).
      exists r2. split; [done|]. split; [by eapply same_identity_trans|lia]. }
  exists r'. rewrite findById_eq. simpl. by rewrite Hget'.
Qed.

Lemma records_persist_witness :
  (findById "id-1" w_pending).1 = Returned (Some (record_of w_data1 "id-1" 10))
  ∧ uuids_fresh [OpInsert w_data2 "id-2" 20; OpUpdate "id-1" failed None] w_pending = true
  ∧ ∃ r', (findById "id-1"
             (run [OpInsert w_data2 "id-2" 20; OpUpdate "id-1" failed None] w_pending)).1
          = Returned (Some r')
          ∧ same_identity (record_of w_data1 "id-1" 10) r'
          ∧ (length (files w_pending)
             ≤ length (files (run [OpInsert w_data2 "id-2" 20; OpUpdate "id-1" failed None]
                                w_pending)))%nat.
Proof.
  split; [reflexivity|]. split; [vm_compute; reflexivity|].
  exact (records_persist w_pending [OpInsert w_data2 "id-2" 20; OpUpdate "id-1" failed None]
           "id-1" (record_of w_data1 "id-1" 10) eq_refl eq_refl).
Defined.

(** ** Statistics, status by status *)

Lemma status_string_inj st st' : status_string st = status_string st' → st = st'.
Proof. by destruct st, st'. Qed.

Lemma count_status_lookup acc file key :
  count_status acc file !! key
  = if decide (status_string (processing_status file) = key)
    then Some (default 0 (acc !! key) + 1)
    else acc !! key.
Proof.
  unfold count_status. destruct (decide (_ = key)) as [<-|Hne].
  - by rewrite lookup_insert_eq.
  - by rewrite lookup_insert_ne.
Qed.

Lemma foldl_count_status_lookup acc (l : list FileRecord) key :
  foldl count_status acc l !! key
  = let n := length (filter (λ r, status_string (processing_status r) = key) l) in
    if decide (n = 0%nat) then acc !! key
    else Some (default 0 (acc !! key) + Z.of_nat n).
Proof.
  revert acc. induction l as [|file l IH]; intros acc; [done|].
  simpl foldl. rewrite IH, filter_cons, count_status_lookup. simpl.
  destruct (decide (status_string (processing_status file) = key)) as [Heq|Hne]; simpl.
  - destruct (decide (length _ = 0%nat)) as [->|Hn]; simpl; [done|].
    f_equal. lia.
  - done.
Qed.

(** X6. For each of the four statuses, [getStats] reports under its name
    the number of records that have it, and has no entry at all for a
    status no record has; it has no entry under any other name. *)
Theorem getStats_counts_each_status (s : SimulatedDatabase) :
  ∃ stats,
    getStats s = (Returned stats, s)
    ∧ (∀ st,
         processingStats stats !! status_string st
         = let n := length (with_status st (JsMap.values (files s))) in
           if decide (n = 0%nat) then None else Some (Z.of_nat n))
    ∧ (∀ key, (∀ st, key ≠ status_string st) → processingStats stats !! key = None).
Proof.
  eexists. split; [apply getStats_eq|]. simpl. split.
  - intros st. rewrite foldl_count_status_lookup, lookup_empty. simpl.
    unfold with_status.
    rewrite (list_filter_iff _ (λ r, processing_status r = st))
      by (intros r; split; [apply status_string_inj | by intros ->]).
    by destruct (decide (length _ = 0%nat)).
  - intros key Hkey. rewrite foldl_count_status_lookup, lookup_empty. simpl.
    rewrite decide_True; [done|].
    induction (JsMap.values (files s)) as [|r l IH]; [done|].
    rewrite filter_cons, decide_False; [done|]. intros Heq. by apply (Hkey (processing_status r)).
Qed.

(** ** Listing *)

Lemma sort_insert_created_at_is t x l :
  created_at_is t (sort_insert compare_created_at x l) = created_at_is t (x :: l).
Proof.
  unfold created_at_is. induction l as [|y l IH]; simpl; [done|].
  unfold compare_created_at at 1.
  destruct (Z.leb_spec (created_at y - created_at x) 0) as [Hle|Hgt]; [done|].
  rewrite !filter_cons in *. rewrite IH.
  destruct (decide (created_at x = t)), (decide (created_at y = t)); try done. lia.
Qed.

Lemma sort_created_at_is t l :
  created_at_is t (sort compare_created_at l) = created_at_is t l.
Proof.
  unfold sort. induction l as [|x l IH]; simpl; [done|].
  rewrite sort_insert_created_at_is. unfold created_at_is in *.
  by rewrite !filter_cons, IH.
Qed.

Lemma slice_all {A} (l : list A) n :
  Z.of_nat (length l) <= n → slice l (Int 0) (js_add (Int 0) (Int n)) = l.
Proof.
  intros Hn. rewrite slice_page by lia. simpl. apply take_ge. lia.
Qed.

(** X7. With offset 0 and a limit of at least the number of records,
    [getAllFiles] returns every record exactly once, newest first, and
    records created at the same millisecond in the order they were
    inserted. *)
Theorem getAllFiles_lists_every_record
    (s : SimulatedDatabase) (n : Z)
    (Hn : Z.of_nat (length (files s)) <= n) :
  ∃ page,
    getAllFiles (Int n) (Int 0) s = (Returned page, s)
    ∧ page ≡ₚ JsMap.values (files s)
    ∧ StronglySorted newer_or_same page
    ∧ (∀ t, created_at_is t page = created_at_is t (JsMap.values (files s))).
Proof.
  eexists. split; [apply getAllFiles_eq|].
  rewrite slice_all.
  - split; [apply sort_perm|]. split; [apply sort_sorted|].
    intros t. apply sort_created_at_is.
  - rewrite (Permutation_length (sort_perm _ _)). unfold JsMap.values.
    by rewrite length_fmap.
Qed.

Lemma getAllFiles_lists_every_record_witness :
  Z.of_nat (length (files (run w_ops db0))) <= 50
  ∧ ∃ page,
      getAllFiles (Int 50) (Int 0) (run w_ops db0) = (Returned page, run w_ops db0)
      ∧ page ≡ₚ JsMap.values (files (run w_ops db0))
      ∧ StronglySorted newer_or_same page
      ∧ (∀ t, created_at_is t page = created_at_is t (JsMap.values (files (run w_ops db0)))).
Proof.
  split; [vm_compute; discriminate|].
  exact (getAllFiles_lists_every_record (run w_ops db0) 50 ltac:(vm_compute; discriminate)).
Defined.

Lemma page_length {A} (l : list A) o n :
  0 <= o → 0 <= n →
  Z.of_nat (length (slice l (Int o) (js_add (Int o) (Int n))))
  = Z.min n (Z.max (Z.of_nat (length l) - o) 0).
Proof.
  intros Ho Hn. rewrite slice_page by done. rewrite length_take, length_drop. lia.
Qed.

(** X8. Pages with an offset and limits that are not negative tile the
    listing: the page of [n] records at [offset] followed by the page of
    [m] records at [offset + n] is the page of [n + m] records at
    [offset]; and a page holds [limit] records, or what is left of the
    listing after [offset] when that is fewer. *)
Theorem getAllFiles_pages_compose
    (s : SimulatedDatabase) (offset n m : Z)
    (Hoffset : 0 <= offset) (Hn : 0 <= n) (Hm : 0 <= m) :
  ∃ first second both,
    getAllFiles (Int n) (Int offset) s = (Returned first, s)
    ∧ getAllFiles (Int m) (Int (offset + n)) s = (Returned second, s)
    ∧ getAllFiles (Int (n + m)) (Int offset) s = (Returned both, s)
    ∧ first ++ second = both
    ∧ Z.of_nat (length first) = Z.min n (Z.max (Z.of_nat (length (files s)) - offset) 0).
Proof.
  eexists _, _, _. rewrite !getAllFiles_eq.
  split; [done|]. split; [done|]. split; [done|].
  set (l := sort compare_created_at (JsMap.values (files s))).
  split.
  - rewrite !slice_page by lia.
    replace (Z.to_nat (offset + n)) with (Z.to_nat offset + Z.to_nat n)%nat by lia.
    replace (Z.to_nat (n + m)) with (Z.to_nat n + Z.to_nat m)%nat by lia.
    rewrite <- drop_drop. apply take_take_drop.
  - rewrite page_length by done. subst l.
    rewrite (Permutation_length (sort_perm _ _)). unfold JsMap.values.
    by rewrite length_fmap.
Qed.

Lemma getAllFiles_pages_compose_witness :
  0 <= 1 ∧ 0 <= 1 ∧ 0 <= 2
  ∧ ∃ first second both,
      getAllFiles (Int 1) (Int 1) (run w_ops db0) = (Returned first, run w_ops db0)
      ∧ getAllFiles (Int 2) (Int (1 + 1)) (run w_ops db0) = (Returned second, run w_ops db0)
      ∧ getAllFiles (Int (1 + 2)) (Int 1) (run w_ops db0) = (Returned both, run w_ops db0)
      ∧ first ++ second = both
      ∧ Z.of_nat (length first)
        = Z.min 1 (Z.max (Z.of_nat (length (files (run w_ops db0))) - 1) 0).
Proof.
  split; [lia|]. split; [lia|]. split; [lia|].
  exact (getAllFiles_pages_compose (run w_ops db0) 1 1 2
           ltac:(vm_compute; discriminate) ltac:(vm_compute; discriminate)
           ltac:(vm_compute; discriminate)).
Defined.

Lemma slice_negative_limit {A} (l : list A) k :
  0 < k →
  slice l (Int 0) (js_add (Int 0) (Int (- k))) = take (length l - Z.to_nat k) l.
Proof.
  intros Hk. unfold slice, relative_index.
  change (to_integer (Int 0)) with 0.
  change (to_integer (js_add (Int 0) (Int (- k)))) with (0 + - k).
  change (0 <? 0) with false. cbv iota.
  destruct (Z.ltb_spec (0 + - k) 0); [|lia].
  rewrite (Z.min_l 0) by lia. rewrite drop_0. f_equal. lia.
Qed.

(** X9. The listing route clamps the limit from above only.  With a limit
    that parses to a negative number [-k] and offset 0, [GET] lists every
    record except the [k] oldest, however many that is. *)
Theorem GET_negative_limit_lists_all_but_oldest
    (parseInt : string → JsNumber) (formatFileSize : Z → string)
    (s : SimulatedDatabase) (limitParam offsetParam : option string) (k : Z)
    (Hk : 0 < k)
    (Hlimit : parseInt (or_string limitParam "50") = Int (- k))
    (Hoffset : parseInt (or_string offsetParam "0") = Int 0) :
  ∃ page pagination stats,
    GET parseInt formatFileSize limitParam offsetParam s
    = (Returned (json (FilesResult true (listed formatFileSize <$> page) pagination stats)), s)
    ∧ page = take (length (files s) - Z.to_nat k)
               (sort compare_created_at (JsMap.values (files s)))
    ∧ length page = (length (files s) - Z.to_nat k)%nat
    ∧ p_limit pagination = Int (- k).
Proof.
  eexists _, _, _. split.
  { unfold GET, try_catch, bind. rewrite Hlimit, Hoffset.
    change (Math_min (Int (- k)) (Int 100)) with (Int (Z.min (- k) 100)).
    change (Math_max (Int 0) (Int 0)) with (Int 0).
    rewrite Z.min_l by lia.
    rewrite getAllFiles_eq, getStats_eq, slice_negative_limit by done. reflexivity. }
  assert (length (sort compare_created_at (JsMap.values (files s))) = length (files s))
    as Hlen.
  { rewrite (Permutation_length (sort_perm _ _)). unfold JsMap.values. apply length_fmap. }
  rewrite Hlen. split; [done|]. split; [|done].
  rewrite length_take, Hlen. lia.
Qed.

Lemma GET_negative_limit_lists_all_but_oldest_witness :
  0 < 1
  ∧ w_parseInt (or_string (Some "-1") "50") = Int (- 1)
  ∧ w_parseInt (or_string None "0") = Int 0
  ∧ ∃ page pagination stats,
      GET w_parseInt formatFileSize (Some "-1") None (run w_ops db0)
      = (Returned (json (FilesResult true (listed formatFileSize <$> page) pagination stats)),
         run w_ops db0)
      ∧ page = take (length (files (run w_ops db0)) - Z.to_nat 1)
                 (sort compare_created_at (JsMap.values (files (run w_ops db0))))
      ∧ length page = (length (files (run w_ops db0)) - Z.to_nat 1)%nat
      ∧ p_limit pagination = Int (- 1).
Proof.
  split; [lia|]. split; [reflexivity|]. split; [reflexivity|].
  exact (GET_negative_limit_lists_all_but_oldest w_parseInt formatFileSize (run w_ops db0)
           (Some "-1") None 1 ltac:(vm_compute; reflexivity) eq_refl eq_refl).
Defined.

(** ** The upload route, continued *)

Lemma findByHash_None_of_index s h :
  hashIndex s !! h = None → findByHash h s = (Returned None, s).
Proof. intros Hnone. by rewrite findByHash_eq, Hnone. Qed.

Lemma POST_new_eq sha256_hex s file uuidv4 now :
  File_size file ≠ 0 →
  File_size file <= default_maxSizeBytes →
  hashIndex s !! computeFileHash sha256_hex (content file) = None →
  let metadata :=
    generateFileMetadata (name file) (File_size file) (type file)
      (computeFileHash sha256_hex (content file)) in
  POST sha256_hex (Some file) uuidv4 now s
  = (Returned (json (UploadResult true false
                       "File uploaded successfully and processing started"
                       (new_view (set_status processing (record_of metadata uuidv4 now)))),
               Some {| job_fileId := uuidv4; job_fileName := name file;
                       job_fileSize := File_size file |}),
     run [OpInsert metadata uuidv4 now; OpUpdate uuidv4 processing None] s).
Proof.
  intros Hne Hle Hnew metadata.
  assert (hashIndex s !! fd_file_hash metadata = None) as Hmeta by done.
  unfold run. cbn [foldl apply_op].
  rewrite (insertFile_absent metadata) by done. cbn [snd].
  rewrite updateProcessingStatus_eq. cbn [snd files hashIndex].
  unfold POST, try_catch, bind. rewrite validateFile_ok by done.
  cbn [isValid negb]. rewrite findByHash_None_of_index by done.
  fold metadata. rewrite (insertFile_absent metadata) by done.
  unfold spawn. rewrite processFileInBackground_start_eq, updateProcessingStatus_eq.
  unfold files_get, ret. cbn [files hashIndex id record_of].
  by rewrite get_mutate_eq, get_set_eq.
Qed.

Lemma POST_conflict_eq sha256_hex s file uuidv4 now :
  File_size file ≠ 0 →
  File_size file <= default_maxSizeBytes →
  (findByHash (computeFileHash sha256_hex (content file)) s).1 = Returned None →
  is_Some (hashIndex s !! computeFileHash sha256_hex (content file)) →
  POST sha256_hex (Some file) uuidv4 now s
  = (Returned (json_status
                 (UploadError (Some "Internal server error")
                    (Some (conflict_message (computeFileHash sha256_hex (content file)))))
                 500, None), s).
Proof.
  intros Hne Hle Hmiss Hin.
  unfold POST, try_catch, bind. rewrite validateFile_ok by done. simpl.
  pose proof (findByHash_state (computeFileHash sha256_hex (content file)) s) as Hst.
  destruct (findByHash (computeFileHash sha256_hex (content file)) s) as [o s'].
  simpl in *. subst. simpl.
  by rewrite insertFile_present.
Qed.

Ltac answered_without_job :=
  split; [simpl; auto|]; split; [done|]; intros ? ?; discriminate.

(** X10. [POST] never throws: it answers 200, 400 or 500.  It leaves the
    store as it was unless it starts a background job, and when it starts
    one, for the identifier drawn, what it did to the store is an
    [insertFile] of the metadata of the file followed by a status update
    of the new record into [processing]. *)
Theorem POST_store_effect
    (sha256_hex : list Byte.byte → string) (s : SimulatedDatabase)
    (file : option File) (uuidv4 : string) (now : Z) :
  ∃ response job s',
    POST sha256_hex file uuidv4 now s = (Returned (response, job), s')
    ∧ (status response = 200 ∨ status response = 400 ∨ status response = 500)
    ∧ (job = None → s' = s)
    ∧ (∀ j, job = Some j →
         ∃ f, file = Some f
              ∧ status response = 200
              ∧ j = {| job_fileId := uuidv4; job_fileName := name f;
                       job_fileSize := File_size f |}
              ∧ s' = run [OpInsert (generateFileMetadata (name f) (File_size f) (type f)
                                      (computeFileHash sha256_hex (content f)))
                            uuidv4 now;
                          OpUpdate uuidv4 processing None] s).
Proof.
  destruct file as [f|]; [|eexists _, _, _; split; [reflexivity|]; answered_without_job].
  destruct (decide (File_size f ≠ 0 ∧ File_size f <= default_maxSizeBytes))
    as [[Hne Hle]|Hinvalid].
  - destruct (findByHash (computeFileHash sha256_hex (content f)) s).1
      as [[existingFile|]|e] eqn:Hfind.
    + eexists _, _, _. split; [by apply POST_duplicate_eq|]. answered_without_job.
    + destruct (hashIndex s !! computeFileHash sha256_hex (content f)) as [k|] eqn:Hidx.
      * eexists _, _, _. split; [by apply POST_conflict_eq; [..|rewrite Hidx]|].
        answered_without_job.
      * eexists _, _, _. split; [by apply POST_new_eq|].
        split; [by left|]. split; [done|]. intros j [= <-]. by exists f.
    + by rewrite findByHash_eq in Hfind.
  - unfold POST, try_catch, bind, validateFile.
    destruct (Z.ltb_spec default_maxSizeBytes (File_size f)); simpl.
    { eexists _, _, _. split; [reflexivity|]. answered_without_job. }
    destruct (Z.eqb_spec (File_size f) 0); simpl.
    { eexists _, _, _. split; [reflexivity|]. answered_without_job. }
    destruct Hinvalid. split; [done|lia].
Qed.



(** X12. In a store reached from the empty one with identifiers that are
    fresh and not empty, an upload that passes validation and runs from
    its lookup to its insert with no other request in between is answered
    [duplicate] exactly when its fingerprint was handed to [insertFile]
    before: then with the one record that has the fingerprint and the
    store left as it was, otherwise with a new record under the
    identifier drawn.  (When another upload of the same bytes gets in
    between, see X25.) *)
Theorem POST_duplicate_iff_inserted
    (sha256_hex : list Byte.byte → string) (ops : list Op)
    (file : File) (uuidv4 : string) (now : Z)
    (Hfresh : uuids_fresh ops db0 = true)
    (Huuids : forallb uuid_nonempty ops = true)
    (Hnonempty : File_size file ≠ 0)
    (Hlimit : File_size file <= default_maxSizeBytes) :
  let s := run ops db0 in
  let h := computeFileHash sha256_hex (content file) in
  (h ∈ inserted_hashes ops →
     ∃ r, r ∈ JsMap.values (files s) ∧ file_hash r = h
          ∧ POST sha256_hex (Some file) uuidv4 now s
            = (Returned (json (UploadResult true true "File already exists in the system"
                                 (existing_view r)), None), s))
  ∧ (h ∉ inserted_hashes ops →
     ∃ view job s',
       POST sha256_hex (Some file) uuidv4 now s
       = (Returned (json (UploadResult true false
                            "File uploaded successfully and processing started" view),
                    Some job), s')
       ∧ u_id view = uuidv4 ∧ u_hash view = h).
Proof.
  intros s h.
  assert (store_ok s) as Hstore by (by apply store_ok_run; [apply store_ok_db0|]).
  assert (index_ok s) as Hindex by (by apply index_ok_run; [apply index_ok_db0|..]).
  pose proof (hashIndex_run ops db0 h) as Hdom. fold s in Hdom.
  split.
  - intros Hin.
    assert (is_Some (hashIndex s !! h)) as Hsome by (apply Hdom; by left).
    apply present_iff in Hsome as (r & Hr & Hh); [|done].
    exists r. split; [done|]. split; [done|].
    apply POST_duplicate_eq; [done..|]. by apply findByHash_exact.
  - intros Hout.
    assert (hashIndex s !! h = None) as Hnone.
    { apply eq_None_not_Some. intros Hs.
      apply Hdom in Hs as [?|Hs]; [done|]. simpl in Hs. rewrite lookup_empty in Hs.
      by destruct Hs. }
    eexists _, _, _. split; [by apply POST_new_eq|]. done.
Qed.

Lemma POST_duplicate_iff_inserted_witness :
  uuids_fresh [OpInsert w_data2 "id-2" 20] db0 = true
  ∧ forallb uuid_nonempty [OpInsert w_data2 "id-2" 20] = true
  ∧ File_size w_hello ≠ 0
  ∧ File_size w_hello <= default_maxSizeBytes
  ∧ ∃ view job s',
      POST w_sha (Some w_hello) "id-3" 30 (run [OpInsert w_data2 "id-2" 20] db0)
      = (Returned (json (UploadResult true false
                           "File uploaded successfully and processing started" view),
                   Some job), s')
      ∧ u_id view = "id-3" ∧ u_hash view = computeFileHash w_sha (content w_hello).
Proof.
  split; [reflexivity|]. split; [reflexivity|]. split; [done|]. split; [done|].
  refine (proj2 (POST_duplicate_iff_inserted w_sha [OpInsert w_data2 "id-2" 20]
                   w_hello "id-3" 30 eq_refl eq_refl ltac:(done) ltac:(done)) _).
  vm_compute. by intros ?%list_elem_of_singleton.
Defined.

(** X13. For a file size that is a safe integer, [simulateRAGProcessing]
    never fails and never reports zero chunks: it returns [success] with
    one chunk for every 667 bytes of the file, rounded down, and one chunk
    for a smaller file; a larger file never gets fewer chunks. *)
Theorem simulateRAGProcessing_chunks
    (fileId fileName : string) (fileSize : Z)
    (Hsafe : safe_integer fileSize) :
  ∃ n,
    simulateRAGProcessing fileId fileName fileSize
    = Returned {| success := true; chunkCount := n |}
    ∧ 1 <= n
    ∧ (fileSize < 1334 → n = 1)
    ∧ (667 <= fileSize → 667 * n <= fileSize < 667 * (n + 1))
    ∧ (∀ fileId' fileName' fileSize' n',
         safe_integer fileSize' →
         fileSize <= fileSize' →
         simulateRAGProcessing fileId' fileName' fileSize'
         = Returned {| success := true; chunkCount := n' |} →
         n <= n').
Proof.
  exists (Z.max 1 (fileSize `div` 667)). split; [done|].
  split; [lia|]. split; [|split].
  - intros Hsmall. assert (fileSize `div` 667 <= 1); [|lia].
    apply Z.lt_succ_r, Z.div_lt_upper_bound; lia.
  - intros Hbig. assert (1 <= fileSize `div` 667) by (apply Z.div_le_lower_bound; lia).
    rewrite Z.max_r by done.
    pose proof (Z.div_mod fileSize 667 ltac:(lia)).
    pose proof (Z.mod_pos_bound fileSize 667 ltac:(lia)). lia.
  - intros fileId' fileName' fileSize' n' _ Hle [= <-].
    pose proof (Z.div_le_mono fileSize fileSize' 667 ltac:(lia) Hle). lia.
Qed.

Lemma simulateRAGProcessing_chunks_witness :
  safe_integer 10000
  ∧ ∃ n,
      simulateRAGProcessing "test-2" "large.txt" 10000
      = Returned {| success := true; chunkCount := n |}
      ∧ 1 <= n
      ∧ (10000 < 1334 → n = 1)
      ∧ (667 <= 10000 → 667 * n <= 10000 < 667 * (n + 1))
      ∧ (∀ fileId' fileName' fileSize' n',
           safe_integer fileSize' →
           10000 <= fileSize' →
           simulateRAGProcessing fileId' fileName' fileSize'
           = Returned {| success := true; chunkCount := n' |} →
           n <= n').
Proof.
  split; [by vm_compute|].
  exact (simulateRAGProcessing_chunks "test-2" "large.txt" 10000 ltac:(by vm_compute)).
Defined.

(** X14. From upload to completion with the job of the source: after a
    new upload, when its background job resumes on
    [simulateRAGProcessing], the job returns without throwing and the
    record is [completed] with a chunk count of at least one, one chunk
    for every 667 bytes of the file. *)
Theorem upload_then_job_completes
    (sha256_hex : list Byte.byte → string) (s : SimulatedDatabase)
    (file : File) (uuidv4 : string) (now : Z)
    (Hnonempty : File_size file ≠ 0)
    (Hlimit : File_size file <= default_maxSizeBytes)
    (Hnew : hashIndex s !! computeFileHash sha256_hex (content file) = None) :
  ∃ response job s1 s2 r n,
    POST sha256_hex (Some file) uuidv4 now s = (Returned (response, Some job), s1)
    ∧ processFileInBackground_resume simulateRAGProcessing job s1 = (Returned (), s2)
    ∧ findById uuidv4 s2 = (Returned (Some r), s2)
    ∧ processing_status r = completed
    ∧ chunk_count r = Some n
    ∧ n = Z.max 1 (File_size file `div` 667)
    ∧ 1 <= n.
Proof.
  eexists _, _, _, _, _, _. split; [by apply POST_new_eq|].
  rewrite processFileInBackground_resume_eq. cbn [job_fileId job_fileName job_fileSize].
  unfold simulateRAGProcessing, job_update. cbn [success chunkCount fst snd].
  rewrite updateProcessingStatus_eq. split; [reflexivity|].
  rewrite findById_eq. cbn [files fst snd].
  unfold run. cbn [foldl apply_op].
  rewrite (insertFile_absent _ _ _ s) by done. cbn [snd].
  rewrite updateProcessingStatus_eq. cbn [snd files].
  rewrite !get_mutate_eq, get_set_eq. cbn [fmap option_fmap option_map].
  split; [reflexivity|]. split; [done|]. split; [done|]. split; [done|]. lia.
Qed.

Lemma upload_then_job_completes_witness :
  File_size w_hello ≠ 0
  ∧ File_size w_hello <= default_maxSizeBytes
  ∧ hashIndex db0 !! computeFileHash w_sha (content w_hello) = None
  ∧ ∃ response job s1 s2 r n,
      POST w_sha (Some w_hello) "id-1" 10 db0 = (Returned (response, Some job), s1)
      ∧ processFileInBackground_resume simulateRAGProcessing job s1 = (Returned (), s2)
      ∧ findById "id-1" s2 = (Returned (Some r), s2)
      ∧ processing_status r = completed
      ∧ chunk_count r = Some n
      ∧ n = Z.max 1 (File_size w_hello `div` 667)
      ∧ 1 <= n.
Proof.
  split; [done|]. split; [done|]. split; [reflexivity|].
  exact (upload_then_job_completes w_sha db0 w_hello "id-1" 10
           ltac:(done) ltac:(done) eq_refl).
Defined.

(** ** [validateFile] *)

(** X15. [validateFile] accepts a size exactly when it is not zero and
    not above the maximum, and gives an error message exactly when it
    rejects.  Nothing else is tested: a negative size is accepted, and so
    is any type. *)
Theorem validateFile_accepts_exactly (size : Z) (type : string) (maxSizeBytes : Z) :
  (isValid (validateFile size type maxSizeBytes) = true
   ↔ size ≠ 0 ∧ size <= maxSizeBytes)
  ∧ (error (validateFile size type maxSizeBytes) = None
     ↔ isValid (validateFile size type maxSizeBytes) = true)
  ∧ (∀ type', isValid (validateFile size type' maxSizeBytes)
              = isValid (validateFile size type maxSizeBytes))
  ∧ (size < 0 → 0 <= maxSizeBytes → isValid (validateFile size type maxSizeBytes) = true).
Proof.
  unfold validateFile.
  destruct (Z.ltb_spec maxSizeBytes size); simpl.
  { repeat split; try done; try lia; intros [? ?]; lia. }
  destruct (Z.eqb_spec size 0); simpl.
  { repeat split; try done; try lia; by intros [? ?]. }
  repeat split; try done; lia.
Qed.

(** ** [formatFileSize] *)

Example formatFileSize_bytes_correctly :
  formatFileSize 0 = "0 B" ∧ formatFileSize 1024 = "1.0 KB"
  ∧ formatFileSize 1048576 = "1.0 MB" ∧ formatFileSize 1073741824 = "1.0 GB".
Proof. repeat split; vm_compute; reflexivity. Qed.

Example formatFileSize_fractional :
  formatFileSize 1536 = "1.5 KB" ∧ formatFileSize 2621440 = "2.5 MB".
Proof. repeat split; vm_compute; reflexivity. Qed.

(* One byte short of a megabyte rounds up to a thousand and twenty-four
   kilobytes. *)
Example formatFileSize_rounds_past_the_unit :
  formatFileSize 1048575 = "1024.0 KB".
Proof. vm_compute. reflexivity. Qed.

Lemma tenths_nearest bytes den :
  0 < den →
  2 * Z.abs (tenths bytes den * den - 10 * bytes) <= den.
Proof.
  intros Hden. unfold tenths.
  pose proof (Z.div_mod (20 * bytes + den) (2 * den) ltac:(lia)).
  pose proof (Z.mod_pos_bound (20 * bytes + den) (2 * den) ltac:(lia)).
  nia.
Qed.

Lemma tenths_at_least_ten bytes den : 0 < den → den <= bytes → 10 <= tenths bytes den.
Proof.
  intros Hden Hle. unfold tenths. apply Z.div_le_lower_bound; nia.
Qed.

Ltac scale_step :=
  match goal with
  | |- context [?a <=? ?b] => destruct (Z.leb_spec a b); [|lia]
  | |- context [?a <=? ?b] => destruct (Z.leb_spec a b); [lia|]
  end.

(** X16. For a safe integer below 1024, both copies of [formatFileSize]
    print the number of bytes itself, followed by "B". *)
Theorem formatFileSize_below_one_kilobyte
    (bytes : Z) (Hsafe : safe_integer bytes) (Hsmall : bytes < 1024) :
  formatFileSize bytes = pretty bytes +:+ " B"
  ∧ FileUploadZone_formatFileSize bytes = pretty bytes +:+ " B".
Proof.
  unfold formatFileSize, FileUploadZone_formatFileSize, format_with_units.
  cbn [length Nat.sub scale_size]. by scale_step.
Qed.

Lemma formatFileSize_below_one_kilobyte_witness :
  safe_integer 1023 ∧ 1023 < 1024 ∧ formatFileSize 1023 = pretty 1023 +:+ " B".
Proof.
  split; [by vm_compute|]. split; [lia|].
  exact (proj1 (formatFileSize_below_one_kilobyte 1023 ltac:(by vm_compute)
                  ltac:(vm_compute; reflexivity))).
Defined.

(** X17. For a safe integer from 1024 on, [formatFileSize] prints the
    size in the largest unit that does not exceed it, up to "TB", with one
    decimal: the tenth nearest to the exact quotient, the upper one on a
    tie.  The number printed is at least 1.0 and within 0.05 of the
    quotient. *)
Theorem formatFileSize_scaled
    (bytes : Z) (u : nat) (unit : string)
    (Hunit : ["B"; "KB"; "MB"; "GB"; "TB"] !! u = Some unit)
    (Hu : (0 < u)%nat)
    (Hlo : 1024 ^ Z.of_nat u <= bytes)
    (Hhi : (u < 4)%nat → bytes < 1024 ^ (Z.of_nat u + 1))
    (Hsafe : bytes <= MAX_SAFE_INTEGER) :
  let n := tenths bytes (1024 ^ Z.of_nat u) in
  formatFileSize bytes
  = (pretty (n `div` 10) +:+ "." +:+ pretty (n `mod` 10)) +:+ " " +:+ unit
  ∧ 10 <= n
  ∧ 2 * Z.abs (n * 1024 ^ Z.of_nat u - 10 * bytes) <= 1024 ^ Z.of_nat u.
Proof.
  intros n. subst n.
  clear Hsafe.
  split; [|split; [apply tenths_at_least_ten; lia | apply tenths_nearest; lia]].
  unfold formatFileSize, format_with_units. cbn [length Nat.sub scale_size].
  destruct u as [|[|[|[|[|u]]]]]; [lia| | | | |done];
    injection Hunit as <-; cbn [Z.of_nat Pos.of_succ_nat Pos.succ] in *;
    (try specialize (Hhi ltac:(lia)));
    repeat match goal with
           | H : context [1024 ^ ?e] |- _ =>
               let v := eval vm_compute in (1024 ^ e) in
               change (1024 ^ e) with v in H
           | |- context [1024 ^ ?e] =>
               let v := eval vm_compute in (1024 ^ e) in
               change (1024 ^ e) with v
           end;
    change (1024 * 1) with 1024;
    repeat (scale_step; cbn [scale_size]; rewrite ?Z.mul_1_r);
    repeat match goal with
           | |- context [1024 * ?x] =>
               let v := eval vm_compute in (1024 * x) in
               change (1024 * x) with v
           end;
    repeat (scale_step; cbn [scale_size]);
    reflexivity.
Qed.

Lemma formatFileSize_scaled_witness :
  ["B"; "KB"; "MB"; "GB"; "TB"] !! 2%nat = Some "MB"
  ∧ (0 < 2)%nat
  ∧ 1024 ^ Z.of_nat 2 <= 2621440
  ∧ ((2 < 4)%nat → 2621440 < 1024 ^ (Z.of_nat 2 + 1))
  ∧ 2621440 <= MAX_SAFE_INTEGER
  ∧ formatFileSize 2621440
    = (pretty (tenths 2621440 (1024 ^ Z.of_nat 2) `div` 10) +:+ "."
       +:+ pretty (tenths 2621440 (1024 ^ Z.of_nat 2) `mod` 10)) +:+ " " +:+ "MB".
Proof.
  split; [reflexivity|]. split; [lia|]. split; [vm_compute; discriminate|].
  split; [intros _; vm_compute; reflexivity|]. split; [vm_compute; discriminate|].
  exact (proj1 (formatFileSize_scaled 2621440 2 "MB" eq_refl ltac:(lia)
                  ltac:(vm_compute; discriminate)
                  ltac:(intros _; vm_compute; reflexivity)
                  ltac:(vm_compute; discriminate))).
Defined.

(** X18. The copy of [formatFileSize] in the upload component, whose
    units stop at "GB", prints what the library function prints for every
    size below 1024^4 bytes; from there on, up to the largest safe
    integer, it keeps counting in "GB" where the library function turns to
    "TB". *)
Theorem formatFileSize_copies_agree (bytes : Z) :
  (bytes < 1024 ^ 4 → FileUploadZone_formatFileSize bytes = formatFileSize bytes)
  ∧ (1024 ^ 4 <= bytes → bytes <= MAX_SAFE_INTEGER →
     FileUploadZone_formatFileSize bytes = toFixed1 bytes (1024 ^ 3) +:+ " GB"
     ∧ formatFileSize bytes = toFixed1 bytes (1024 ^ 4) +:+ " TB").
Proof.
  change (1024 ^ 4) with 1099511627776. change (1024 ^ 3) with 1073741824.
  unfold formatFileSize, FileUploadZone_formatFileSize, format_with_units.
  cbn [length Nat.sub scale_size]. change (1024 * 1) with 1024.
  split.
  - intros Hlt.
    destruct (Z.leb_spec 1024 bytes); [|done]. cbn [scale_size].
    change (1024 * 1024) with 1048576.
    destruct (Z.leb_spec 1048576 bytes); [|done]. cbn [scale_size].
    change (1024 * 1048576) with 1073741824.
    destruct (Z.leb_spec 1073741824 bytes); [|done]. cbn [scale_size].
    change (1024 * 1073741824) with 1099511627776.
    by destruct (Z.leb_spec 1099511627776 bytes); [lia|].
  - intros Hge _.
    destruct (Z.leb_spec 1024 bytes); [|lia]. cbn [scale_size].
    change (1024 * 1024) with 1048576.
    destruct (Z.leb_spec 1048576 bytes); [|lia]. cbn [scale_size].
    change (1024 * 1048576) with 1073741824.
    destruct (Z.leb_spec 1073741824 bytes); [|lia]. cbn [scale_size].
    change (1024 * 1073741824) with 1099511627776.
    by destruct (Z.leb_spec 1099511627776 bytes); [|lia].
Qed.

(** ** [computeStreamHash] *)

Section StreamHashFacts.
Context {Hash : Type}.
Variable createHash : Hash.
Variable update : Hash → list Byte.byte → Hash.
Variable digest : Hash → string.

Lemma computeStreamHash_from_data hash chunks events :
  computeStreamHash_from update digest hash ((OnData <$> chunks) ++ events)
  = computeStreamHash_from update digest (foldl update hash chunks) events.
Proof.
  revert hash. induction chunks as [|chunk chunks IH]; intros hash; csimpl; [done|].
  apply IH.
Qed.

Lemma foldl_update_concat hash chunks :
  (∀ h a b, update (update h a) b = update h (a ++ b)) →
  (∀ h, update h [] = h) →
  foldl update hash chunks = update hash (concat chunks).
Proof.
  intros Happ Hnil. revert hash.
  induction chunks as [|chunk chunks IH]; intros hash; simpl; [by rewrite Hnil|].
  by rewrite IH, Happ.
Qed.
End StreamHashFacts.

(** X19. For a [Hash] object on which feeding two chunks is feeding their
    concatenation, and feeding nothing changes nothing, [computeStreamHash]
    of a stream that delivers chunks and then ends resolves to what
    [computeFileHash] returns for the whole buffer, however the bytes were
    cut into chunks and whatever the stream emits after its end. *)
Theorem computeStreamHash_agrees_with_computeFileHash
    {Hash : Type} (createHash : Hash) (update : Hash → list Byte.byte → Hash)
    (digest : Hash → string) (chunks : list (list Byte.byte)) (later : list StreamEvent)
    (Happend : ∀ h a b, update (update h a) b = update h (a ++ b))
    (Hnothing : ∀ h, update h [] = h) :
  computeStreamHash createHash update digest ((OnData <$> chunks) ++ OnEnd :: later)
  = Some (Returned (computeFileHash (λ fileBuffer, digest (update createHash fileBuffer))
                      (concat chunks))).
Proof.
  unfold computeStreamHash, computeFileHash.
  rewrite computeStreamHash_from_data. simpl.
  by rewrite foldl_update_concat.
Qed.

Lemma computeStreamHash_agrees_with_computeFileHash_witness :
  (∀ h a b : list Byte.byte, (h ++ a) ++ b = h ++ (a ++ b))
  ∧ (∀ h : list Byte.byte, h ++ [] = h)
  ∧ computeStreamHash [] app w_digest
      ((OnData <$> [[Byte.x48; Byte.x65]; []; [Byte.x6c]]) ++ OnEnd :: [OnData [Byte.x6c]])
    = Some (Returned (computeFileHash (λ fileBuffer, w_digest ([] ++ fileBuffer))
                        (concat [[Byte.x48; Byte.x65]; []; [Byte.x6c]]))).
Proof.
  split; [intros; by rewrite <- app_assoc|]. split; [apply app_nil_r|].
  exact (computeStreamHash_agrees_with_computeFileHash [] app w_digest
           [[Byte.x48; Byte.x65]; []; [Byte.x6c]] [OnData [Byte.x6c]]
           (λ h a b, eq_sym (app_assoc h a b)) (λ h, app_nil_r h)).
Defined.

(** X20. A stream that fails before it ends rejects the promise of
    [computeStreamHash] with the error of the stream, whatever was read
    before and whatever is emitted afterwards; a stream that delivers
    chunks and neither ends nor fails leaves the promise pending. *)
Theorem computeStreamHash_error_or_pending
    {Hash : Type} (createHash : Hash) (update : Hash → list Byte.byte → Hash)
    (digest : Hash → string) (chunks : list (list Byte.byte))
    (e : JsError) (later : list StreamEvent) :
  computeStreamHash createHash update digest ((OnData <$> chunks) ++ OnError e :: later)
  = Some (Thrown e)
  ∧ computeStreamHash createHash update digest (OnData <$> chunks) = None.
Proof.
  unfold computeStreamHash. split.
  - by rewrite computeStreamHash_from_data.
  - rewrite <- (app_nil_r (OnData <$> chunks)). by rewrite computeStreamHash_from_data.
Qed.

(** ** The duplicate-check route *)

Lemma is_hex_digit_lower c : is_hex_digit (lower_ascii c) = is_hex_digit c.
Proof. destruct c as [[] [] [] [] [] [] [] []]; vm_compute; reflexivity. Qed.

Lemma lower_ascii_idemp c : lower_ascii (lower_ascii c) = lower_ascii c.
Proof. destruct c as [[] [] [] [] [] [] [] []]; vm_compute; reflexivity. Qed.

Lemma toLowerCase_length hash : String.length (toLowerCase hash) = String.length hash.
Proof. induction hash as [|c hash IH]; simpl; [done|]. by rewrite IH. Qed.

Lemma toLowerCase_all_hex hash : all_hex (toLowerCase hash) = all_hex hash.
Proof.
  induction hash as [|c hash IH]; simpl; [done|]. by rewrite is_hex_digit_lower, IH.
Qed.

Lemma toLowerCase_idemp hash : toLowerCase (toLowerCase hash) = toLowerCase hash.
Proof.
  induction hash as [|c hash IH]; simpl; [done|]. by rewrite lower_ascii_idemp, IH.
Qed.

Lemma toLowerCase_empty hash : toLowerCase hash = "" ↔ hash = "".
Proof. by destruct hash. Qed.

Lemma CheckDuplicate_invalid_eq hash s :
  ¬ (String.length hash = 64%nat ∧ all_hex hash = true) →
  CheckDuplicateRoute.GET hash s
  = (Returned (json_status
                 (CheckError "Invalid hash format. Expected 64-character hexadecimal string."
                    None) 400), s).
Proof.
  intros Hinvalid. unfold CheckDuplicateRoute.GET, try_catch, hex_regex_test.
  destruct (bool_decide (hash = "")) eqn:Hempty; [done|]. simpl.
  destruct (bool_decide (String.length hash = 64%nat)) eqn:Hlen; [|done]. simpl.
  destruct (all_hex hash) eqn:Hhex; [|done].
  apply bool_decide_eq_true_1 in Hlen. by destruct Hinvalid.
Qed.

Lemma CheckDuplicate_valid_eq hash s :
  String.length hash = 64%nat → all_hex hash = true →
  CheckDuplicateRoute.GET hash s
  = (Returned (json (match (findByHash (toLowerCase hash) s).1 with
                     | Returned (Some existingFile) =>
                         CheckFound true (existing_view existingFile)
                     | _ => CheckMissing false "No file found with this hash"
                     end)), s).
Proof.
  intros Hlen Hhex. unfold CheckDuplicateRoute.GET, try_catch, bind, hex_regex_test.
  assert (hash ≠ "") as Hne by (by intros ->).
  rewrite (bool_decide_eq_false_2 (hash = "")) by done.
  rewrite (bool_decide_eq_true_2 (String.length hash = 64%nat)) by done.
  rewrite Hhex. cbn [negb orb andb].
  rewrite findByHash_eq. cbn [fst].
  destruct (hashIndex s !! toLowerCase hash) as [k|]; [|done].
  destruct (decide (k = "")); [done|].
  by destruct (JsMap.get k (files s)).
Qed.

(** X21. The duplicate-check route never throws, never answers 500 and
    never changes the store.  It answers 400 exactly when the hash is not
    64 hexadecimal digits; otherwise it answers 200, with the record
    [findByHash] finds for the hash in lower case and [duplicate] set, or
    with [duplicate] unset when there is none. *)
Theorem CheckDuplicate_GET_answers (hash : string) (s : SimulatedDatabase) :
  ∃ response,
    CheckDuplicateRoute.GET hash s = (Returned response, s)
    ∧ (status response = 400 ↔ ¬ (String.length hash = 64%nat ∧ all_hex hash = true))
    ∧ (status response = 200 ↔ String.length hash = 64%nat ∧ all_hex hash = true)
    ∧ (∀ existingFile,
         String.length hash = 64%nat → all_hex hash = true →
         (findByHash (toLowerCase hash) s).1 = Returned (Some existingFile) →
         body response = CheckFound true (existing_view existingFile))
    ∧ (String.length hash = 64%nat → all_hex hash = true →
       (findByHash (toLowerCase hash) s).1 = Returned None →
       body response = CheckMissing false "No file found with this hash").
Proof.
  destruct (decide (String.length hash = 64%nat ∧ all_hex hash = true)) as [[Hlen Hhex]|Hinv].
  - eexists. split; [by apply CheckDuplicate_valid_eq|]. simpl.
    split; [split; [done|by intros []]|]. split; [done|].
    split; [by intros r _ _ ->|by intros _ _ ->].
  - eexists. split; [by apply CheckDuplicate_invalid_eq|]. simpl.
    split; [done|]. split; [split; [done|by intros]|].
    split; [intros r ? ?|intros ? ?]; by destruct Hinv.
Qed.

(** X22. The duplicate-check route does not tell capitals from small
    letters: for a hash of 64 hexadecimal digits, the answer is the one
    for the same hash written in lower case. *)
Theorem CheckDuplicate_GET_ignores_case
    (hash : string) (s : SimulatedDatabase)
    (Hlength : String.length hash = 64%nat)
    (Hhex : all_hex hash = true) :
  CheckDuplicateRoute.GET hash s = CheckDuplicateRoute.GET (toLowerCase hash) s.
Proof.
  rewrite !CheckDuplicate_valid_eq;
    rewrite ?toLowerCase_length, ?toLowerCase_all_hex, ?toLowerCase_idemp; done.
Qed.

Lemma CheckDuplicate_GET_ignores_case_witness :
  String.length w_hash_upper = 64%nat
  ∧ all_hex w_hash_upper = true
  ∧ toLowerCase w_hash_upper = w_sha []
  ∧ CheckDuplicateRoute.GET w_hash_upper (POST w_sha (Some w_hello) "id-1" 10 db0).2
    = CheckDuplicateRoute.GET (toLowerCase w_hash_upper)
        (POST w_sha (Some w_hello) "id-1" 10 db0).2.
Proof.
  split; [reflexivity|]. split; [reflexivity|]. split; [reflexivity|].
  exact (CheckDuplicate_GET_ignores_case w_hash_upper
           (POST w_sha (Some w_hello) "id-1" 10 db0).2 eq_refl eq_refl).
Defined.

(** X23. The duplicate-check route and the upload route agree.  For a
    file that passes validation and whose digest is 64 hexadecimal digits
    in lower case: when [findByHash] finds a record for the digest, both
    answer [duplicate] with that record, and when it finds none, the check
    answers [duplicate] unset and the upload does not answer [duplicate]
    either. *)
Theorem CheckDuplicate_agrees_with_upload
    (sha256_hex : list Byte.byte → string) (s : SimulatedDatabase)
    (file : File) (uuidv4 : string) (now : Z)
    (Hnonempty : File_size file ≠ 0)
    (Hlimit : File_size file <= default_maxSizeBytes)
    (Hlength : String.length (computeFileHash sha256_hex (content file)) = 64%nat)
    (Hhex : all_hex (computeFileHash sha256_hex (content file)) = true)
    (Hlower : toLowerCase (computeFileHash sha256_hex (content file))
              = computeFileHash sha256_hex (content file)) :
  let h := computeFileHash sha256_hex (content file) in
  (∀ existingFile,
     (findByHash h s).1 = Returned (Some existingFile) →
     CheckDuplicateRoute.GET h s
     = (Returned (json (CheckFound true (existing_view existingFile))), s)
     ∧ POST sha256_hex (Some file) uuidv4 now s
       = (Returned (json (UploadResult true true "File already exists in the system"
                            (existing_view existingFile)), None), s))
  ∧ ((findByHash h s).1 = Returned None →
     CheckDuplicateRoute.GET h s
     = (Returned (json (CheckMissing false "No file found with this hash")), s)
     ∧ ∃ response job s',
         POST sha256_hex (Some file) uuidv4 now s = (Returned (response, job), s')
         ∧ ∀ message view, body response ≠ UploadResult true true message view).
Proof.
  intros h. subst h. split.
  - intros r Hfound. split; [|by apply POST_duplicate_eq].
    rewrite CheckDuplicate_valid_eq by done. by rewrite Hlower, Hfound.
  - intros Hmiss. split.
    { rewrite CheckDuplicate_valid_eq by done. by rewrite Hlower, Hmiss. }
    destruct (hashIndex s !! computeFileHash sha256_hex (content file)) as [k|] eqn:Hidx.
    + eexists _, _, _. split; [apply POST_conflict_eq; [done..|by rewrite Hidx]|].
      by intros ? ?.
    + eexists _, _, _. split; [by apply POST_new_eq|]. by intros ? ?.
Qed.

Lemma CheckDuplicate_agrees_with_upload_witness :
  File_size w_hello ≠ 0
  ∧ File_size w_hello <= default_maxSizeBytes
  ∧ String.length (computeFileHash w_sha (content w_hello)) = 64%nat
  ∧ all_hex (computeFileHash w_sha (content w_hello)) = true
  ∧ toLowerCase (computeFileHash w_sha (content w_hello))
    = computeFileHash w_sha (content w_hello)
  ∧ CheckDuplicateRoute.GET (computeFileHash w_sha (content w_hello)) db0
    = (Returned (json (CheckMissing false "No file found with this hash")), db0).
Proof.
  split; [done|]. split; [done|]. split; [reflexivity|]. split; [reflexivity|].
  split; [reflexivity|].
  exact (proj1 (proj2 (CheckDuplicate_agrees_with_upload w_sha db0 w_hello "id-1" 10
                         ltac:(done) ltac:(done) eq_refl eq_refl eq_refl) eq_refl)).
Defined.

(** ** The statistics route *)

(** X24. On a store reached from the empty one by inserts and status
    updates, the statistics route answers 200 with [duplicatesSaved] equal
    to 0: the store never holds two records for one fingerprint, so the
    difference it reports is always nil.  The totals are the number of
    records, and the store is left as it was. *)
Theorem Stats_GET_reports_no_duplicates
    (ops : list Op) (timestamp : string)
    (Hfresh : uuids_fresh ops db0 = true) :
  ∃ view,
    StatsRoute.GET timestamp (run ops db0)
    = (Returned (json (StatsResult true view)), run ops db0)
    ∧ v_duplicatesSaved view = 0
    ∧ v_totalFiles view = Z.of_nat (length (files (run ops db0)))
    ∧ v_uniqueHashes view = v_totalFiles view
    ∧ v_timestamp view = timestamp.
Proof.
  eexists. split.
  { unfold StatsRoute.GET, try_catch, bind. rewrite getStats_eq. reflexivity. }
  destruct (store_ok_run ops db0 store_ok_db0 Hfresh) as [_ Hsize]. simpl.
  rewrite Hsize. split; [lia|]. done.
Qed.

Lemma Stats_GET_reports_no_duplicates_witness :
  uuids_fresh w_ops db0 = true
  ∧ ∃ view,
      StatsRoute.GET "2025-01-15T10:30:00.000Z" (run w_ops db0)
      = (Returned (json (StatsResult true view)), run w_ops db0)
      ∧ v_duplicatesSaved view = 0
      ∧ v_totalFiles view = Z.of_nat (length (files (run w_ops db0)))
      ∧ v_uniqueHashes view = v_totalFiles view
      ∧ v_timestamp view = "2025-01-15T10:30:00.000Z".
Proof.
  split; [reflexivity|].
  exact (Stats_GET_reports_no_duplicates w_ops "2025-01-15T10:30:00.000Z" eq_refl).
Defined.

(** ** Two uploads at once *)

(* [POST] is its two parts run one after the other. *)
Lemma POST_split sha256_hex file uuidv4 now s :
  POST sha256_hex file uuidv4 now s
  = (let* lookup := POST_lookup sha256_hex file in
     match lookup with
     | Answered response => ret (response, None)
     | Missed file fileHash => POST_insert file fileHash uuidv4 now
     end) s.
Proof.
  unfold POST, POST_lookup, POST_insert, try_catch, bind.
  destruct file as [f|]; [|done].
  destruct (negb (isValid (validateFile (File_size f) (type f) default_maxSizeBytes)));
    [done|].
  rewrite findByHash_eq. cbn [fst snd].
  destruct (hashIndex s !! computeFileHash sha256_hex (content f)) as [k|]; [|done].
  destruct (decide (k = "")); [done|].
  by destruct (JsMap.get k (files s)).
Qed.

Lemma POST_lookup_missed sha256_hex file s :
  File_size file ≠ 0 →
  File_size file <= default_maxSizeBytes →
  hashIndex s !! computeFileHash sha256_hex (content file) = None →
  POST_lookup sha256_hex (Some file) s
  = (Returned (Missed file (computeFileHash sha256_hex (content file))), s).
Proof.
  intros Hne Hle Hnew. unfold POST_lookup, try_catch, bind.
  rewrite validateFile_ok by done. cbn [isValid negb].
  by rewrite findByHash_None_of_index.
Qed.

Lemma POST_insert_conflict file fileHash uuidv4 now s :
  is_Some (hashIndex s !! fileHash) →
  POST_insert file fileHash uuidv4 now s
  = (Returned (json_status
                 (UploadError (Some "Internal server error")
                    (Some ("File with hash " +:+ fileHash +:+ " already exists")))
                 500, None), s).
Proof.
  intros Hin. unfold POST_insert, try_catch, bind.
  by rewrite insertFile_present.
Qed.

(** X25. Two uploads of the same new bytes that both do their lookup
    before either does its insert: both lookups miss; the upload that
    inserts first is answered 200 as a new file, and from then on the
    index holds the fingerprint, so that the other one, whenever it
    resumes, runs into the "already exists" error of [insertFile] and is
    answered 500 with that message, starts no background job and leaves
    the store as it finds it. *)
Theorem concurrent_uploads_of_same_bytes
    (sha256_hex : list Byte.byte → string) (s : SimulatedDatabase)
    (file1 file2 : File) (uuid1 uuid2 : string) (now1 now2 : Z)
    (Hsame : content file2 = content file1)
    (Hnonempty : File_size file1 ≠ 0)
    (Hlimit : File_size file1 <= default_maxSizeBytes)
    (Hnew : hashIndex s !! computeFileHash sha256_hex (content file1) = None) :
  let h := computeFileHash sha256_hex (content file1) in
  ∃ view job s1,
    POST_lookup sha256_hex (Some file1) s = (Returned (Missed file1 h), s)
    ∧ POST_lookup sha256_hex (Some file2) s = (Returned (Missed file2 h), s)
    ∧ POST_insert file1 h uuid1 now1 s
      = (Returned (json (UploadResult true false
                           "File uploaded successfully and processing started" view),
                   Some job), s1)
    ∧ u_id view = uuid1
    ∧ hashIndex (insertFile (generateFileMetadata (name file1) (File_size file1)
                               (type file1) h) uuid1 now1 s).2 !! h = Some uuid1
    ∧ hashIndex s1 !! h = Some uuid1
    ∧ (∀ s', is_Some (hashIndex s' !! h) →
         POST_insert file2 h uuid2 now2 s'
         = (Returned (json_status
                        (UploadError (Some "Internal server error")
                           (Some ("File with hash " +:+ h +:+ " already exists")))
                        500, None), s')).
Proof.
  intros h.
  assert (File_size file2 = File_size file1) as Hsize
    by (unfold File_size; by rewrite Hsame).
  pose proof (POST_lookup_missed sha256_hex file1 s Hnonempty Hlimit Hnew) as Hl1.
  assert (POST_lookup sha256_hex (Some file2) s = (Returned (Missed file2 h), s)) as Hl2.
  { subst h. rewrite <- Hsame. apply POST_lookup_missed; rewrite ?Hsize, ?Hsame; done. }
  pose proof (POST_split sha256_hex (Some file1) uuid1 now1 s) as Hsplit.
  unfold bind in Hsplit. rewrite Hl1 in Hsplit. fold h in Hsplit.
  rewrite POST_new_eq in Hsplit by done.
  assert (hashIndex (insertFile (generateFileMetadata (name file1) (File_size file1)
                                   (type file1) h) uuid1 now1 s).2 !! h = Some uuid1)
    as Hinserted.
  { rewrite insertFile_absent by done. cbn [snd hashIndex generateFileMetadata fd_file_hash].
    apply lookup_insert_eq. }
  eexists _, _, _. split; [exact Hl1|]. split; [exact Hl2|].
  split; [symmetry; exact Hsplit|]. split; [done|]. split; [exact Hinserted|].
  split; [|intros s' Hin; by apply POST_insert_conflict].
  unfold run. cbn [foldl apply_op]. by rewrite updateProcessingStatus_eq.
Qed.

Lemma concurrent_uploads_of_same_bytes_witness :
  content w_hello_renamed = content w_hello
  ∧ File_size w_hello ≠ 0
  ∧ File_size w_hello <= default_maxSizeBytes
  ∧ hashIndex db0 !! computeFileHash w_sha (content w_hello) = None
  ∧ POST_insert w_hello_renamed (computeFileHash w_sha (content w_hello)) "id-2" 20
      (POST_insert w_hello (computeFileHash w_sha (content w_hello)) "id-1" 10 db0).2
    = (Returned (json_status
                   (UploadError (Some "Internal server error")
                      (Some ("File with hash "
                             +:+ computeFileHash w_sha (content w_hello)
                             +:+ " already exists")))
                   500, None),
       (POST_insert w_hello (computeFileHash w_sha (content w_hello)) "id-1" 10 db0).2).
Proof.
  split; [reflexivity|]. split; [done|]. split; [done|]. split; [reflexivity|].
  destruct (concurrent_uploads_of_same_bytes w_sha db0 w_hello w_hello_renamed
              "id-1" "id-2" 10 20 eq_refl ltac:(done) ltac:(done) eq_refl)
    as (view & job & s1 & _ & _ & _ & _ & _ & _ & Hconflict).
  apply Hconflict. vm_compute. by eexists.
Defined.
